(** * readme-generator: a shallow embedding of [generate.py]

    The development follows the source file top to bottom: text
    primitives of the Python runtime that the script relies on, the
    ignore-aware directory walk, the tolerant JSON reader, the table
    renderers, the per-format extractors, the document patcher and the
    orchestrator.

    Conventions.
    - A Python [str] is the list of its code points ([N]).  Literals of
      the source are written [lit "..."]; a line feed is [nl].
    - A call that may raise returns an [outcome]: the value returned or
      the exception raised.
    - [print] is modelled by a list of events next to the result.
    - Library calls whose behaviour the script does not define
      ([json.load], [yaml.safe_load], [pathspec], [os.path.relpath],
      [str()] of a non-string) are the fields of a [Runtime]; the file
      system is a [Disk]. *)

From Stdlib Require Import Ascii String.
From stdpp Require Import base tactics option list sorting numbers strings pretty gmap.

Set Warnings "-register-all".

Local Open Scope N_scope.
Local Open Scope nat_scope.

(** ** Text *)

Abbreviation char := N (only parsing).
Abbreviation str := (list N) (only parsing).

Definition lit (s : string) : str :=
  N_of_ascii <$> String.list_ascii_of_string s.

Definition nl : char := 10%N.
Definition backslash : char := 92%N.
Definition dquote : char := 34%N.

Module Text.

(** [s.startswith(p)] *)
Fixpoint startswith (p s : str) : bool :=
  match p, s with
  | [], _ => true
  | _ :: _, [] => false
  | a :: p', b :: s' => (a =? b)%N && startswith p' s'
  end.

(** The first occurrence of [p] in [s], as the text before it and the
    text after it; [None] when [p] does not occur ([s.find(p) == -1]). *)
Fixpoint cut (p s : str) : option (str * str) :=
  match s with
  | [] => if startswith p [] then Some ([], []) else None
  | c :: s' =>
      if startswith p s then Some ([], drop (length p) s)
      else prod_map (cons c) id <$> cut p s'
  end.

(** [p in s] *)
Definition contains (p s : str) : bool :=
  match cut p s with Some _ => true | None => false end.

(** [c in s] for a single character *)
Definition has_char (c : char) (s : str) : bool :=
  existsb (N.eqb c) s.

(** [str.isspace] on one code point (Unicode White_Space plus the
    information separators U+001C..U+001F, as CPython defines it). *)
Definition is_space (c : char) : bool :=
  ((9 <=? c) && (c <=? 13) || (28 <=? c) && (c <=? 32)
   || (c =? 133) || (c =? 160) || (c =? 5760)
   || (8192 <=? c) && (c <=? 8202) || (c =? 8232) || (c =? 8233)
   || (c =? 8239) || (c =? 8287) || (c =? 12288))%N.

(** [s.lstrip()], [s.rstrip()], [s.strip()] *)
Fixpoint lstrip (s : str) : str :=
  match s with
  | c :: s' => if is_space c then lstrip s' else s
  | [] => []
  end.

Definition rstrip (s : str) : str := reverse (lstrip (reverse s)).

Definition strip (s : str) : str := rstrip (lstrip s).

(** [s.rstrip(c)] for one character *)
Definition rstrip_char (c : char) (s : str) : str :=
  reverse ((fix go (r : str) : str :=
              match r with
              | d :: r' => if (d =? c)%N then go r' else r
              | [] => []
              end) (reverse s)).

(** [s.split()]: the maximal runs of non-space characters.  [cur] is the
    run being read. *)
Fixpoint split_ws (cur s : str) : list str :=
  match s with
  | [] => match cur with [] => [] | _ => [cur] end
  | c :: s' =>
      if is_space c
      then match cur with [] => split_ws [] s' | _ => cur :: split_ws [] s' end
      else split_ws (cur ++ [c]) s'
  end.

Definition split (s : str) : list str := split_ws [] s.

(** [s.split(sep)] for a one-character separator: empty fields are kept. *)
Fixpoint split_on (sep : char) (cur s : str) : list str :=
  match s with
  | [] => [cur]
  | c :: s' =>
      if (c =? sep)%N then cur :: split_on sep [] s'
      else split_on sep (cur ++ [c]) s'
  end.

(** [sep.join(parts)] *)
Fixpoint join (sep : str) (parts : list str) : str :=
  match parts with
  | [] => []
  | [p] => p
  | p :: rest => p ++ sep ++ join sep rest
  end.

(** [str.upper] on one code point.  Tabulated: the ASCII and Latin-1
    letters and every code point whose upper-case form contains an ASCII
    letter (sharp s, dotless i, long s, the Latin ligatures and the
    letters with a combining mark of SpecialCasing).  The remaining case
    pairs of Unicode produce no ASCII letter; they are left unchanged
    here, which cannot change a comparison with an ASCII keyword. *)
Definition upper_char (c : char) : str :=
  (if (97 <=? c) && (c <=? 122) then [c - 32]
   else if (224 <=? c) && (c <=? 254) && negb (c =? 247) then [c - 32]
   else if c =? 223 then [83; 83]
   else if c =? 181 then [924]
   else if c =? 255 then [376]
   else if c =? 305 then [73]
   else if c =? 383 then [83]
   else if c =? 329 then [700; 78]
   else if c =? 496 then [74; 780]
   else if c =? 7830 then [72; 817]
   else if c =? 7831 then [84; 776]
   else if c =? 7832 then [87; 778]
   else if c =? 7833 then [89; 778]
   else if c =? 7834 then [65; 702]
   else if c =? 64256 then [70; 70]
   else if c =? 64257 then [70; 73]
   else if c =? 64258 then [70; 76]
   else if c =? 64259 then [70; 70; 73]
   else if c =? 64260 then [70; 70; 76]
   else if c =? 64261 then [83; 84]
   else if c =? 64262 then [83; 84]
   else [c])%N.

Definition upper (s : str) : str := s ≫= upper_char.

(** The lines a text file yields when iterated: each keeps its line
    feed, and a final line without one is yielded as it is. *)
Fixpoint file_lines (cur s : str) : list str :=
  match s with
  | [] => match cur with [] => [] | _ => [cur] end
  | c :: s' =>
      if (c =? nl)%N then (cur ++ [c]) :: file_lines [] s'
      else file_lines (cur ++ [c]) s'
  end.

(** [s.splitlines()]: the line boundaries of [str.splitlines]; a carriage
    return followed by a line feed is one boundary, and no empty last
    line is produced. *)
Definition is_linebreak (c : char) : bool :=
  ((10 <=? c) && (c <=? 13) || (28 <=? c) && (c <=? 30)
   || (c =? 133) || (c =? 8232) || (c =? 8233))%N.

Fixpoint splitlines (cur s : str) : list str :=
  match s with
  | [] => match cur with [] => [] | _ => [cur] end
  | c :: s' =>
      if is_linebreak c then
        if (c =? 13)%N then
          match s' with
          | d :: s'' => if (d =? 10)%N then cur :: splitlines [] s''
                        else cur :: splitlines [] s'
          | [] => [cur]
          end
        else cur :: splitlines [] s'
      else splitlines (cur ++ [c]) s'
  end.

End Text.

(** ** Paths ([os.path] on POSIX) *)
Module Path.

Definition sep : char := 47%N.

(** [os.path.join(a, b)] *)
Definition join (a b : str) : str :=
  if Text.startswith [sep] b then b
  else match last a with
       | None => b
       | Some c => if (c =? sep)%N then a ++ b else a ++ [sep] ++ b
       end.

(** [os.path.basename(p)]: what follows the last separator. *)
Definition basename (p : str) : str :=
  default [] (last (Text.split_on sep [] p)).

(** [os.path.dirname(p)]: what precedes the last separator, without the
    separators that end it, unless nothing but separators is left. *)
Definition dirname (p : str) : str :=
  let head := take (length p - length (basename p)) p in
  if forallb (N.eqb sep) head then head else Text.rstrip_char sep head.

End Path.


(** ** Values, exceptions and the environment *)

(** What [json.load] and [yaml.safe_load] return.  [VNull] is [None];
    numbers are the integers (no claim below depends on a float). *)
Inductive value :=
  | VNull
  | VBool (b : bool)
  | VNum (z : Z)
  | VStr (s : str)
  | VList (items : list value)
  | VDict (fields : list (str * value)).

(** The exceptions that leave a function of the script. *)
Inductive exn :=
  | TypeError
  | AttributeError
  | IndexError
  | UnboundLocalError
  | ReError                (* re.error *)
  | ReadError.             (* OSError or UnicodeDecodeError of open and read *)

Inductive outcome (A : Type) :=
  | Returned (a : A)
  | Raised (e : exn).
Arguments Returned {A} a.
Arguments Raised {A} e.

Definition obind {A B} (m : outcome A) (k : A → outcome B) : outcome B :=
  match m with
  | Returned a => k a
  | Raised e => Raised e
  end.

Notation "x ←! m ; k" := (obind m (λ x, k))
  (at level 20, m at level 100, k at level 200, right associativity,
   format "x  ←!  m ;  '/' k").
Notation "' x ←! m ; k" := (obind m (λ x : _, k))
  (at level 20, x pattern, m at level 100, k at level 200,
   only parsing, right associativity).

(** [[f(x) for x in l]] where [f] may raise *)
Fixpoint traverse {A B} (f : A → outcome B) (l : list A) : outcome (list B) :=
  match l with
  | [] => Returned []
  | x :: l' => y ←! f x; ys ←! traverse f l'; Returned (y :: ys)
  end.

(** What the script prints.  The text of the caught exception, which
    each message ends with, is the runtime's and is left out. *)
Inductive event :=
  | ErrorReading (path : str)               (* Error reading {path}: ... *)
  | ErrorAfterCleaning (path : str)         (* Error reading {path} even after cleaning: ... *)
  | ErrorReadingDockerfile (path : str)     (* Error reading Dockerfile {path}: ... *)
  | ErrorProcessing (path : str)            (* Error processing {path}: ... *)
  | InfoUpdated (path : str).               (* Development info updated in {path} *)

(** The path an [event] names. *)
Definition event_path (e : event) : str :=
  match e with
  | ErrorReading p | ErrorAfterCleaning p | ErrorReadingDockerfile p
  | ErrorProcessing p | InfoUpdated p => p
  end.

(** A file as [open] and the reads that follow see it. *)
Inductive source :=
  | Text (text : str)      (* opens and reads to its end *)
  | Fails (seen : str).    (* [open] or a read raises, after [seen] was read;
                              a missing file is [Fails []] *)

Inductive load_result :=
  | Loaded (v : value)
  | DecodeError            (* json.JSONDecodeError *)
  | OtherError.            (* any other exception *)

(** The directories below a root as [os.walk] lists them: the
    sub-directories by name, and the names of the other entries. *)
Inductive tree :=
  | Dir (dirs : list (str * tree)) (files : list str).

(** The libraries the script calls and does not define. *)
Record Runtime := {
  json_loads : str → load_result;            (* json.loads *)
  yaml_safe_load : str → option value;       (* yaml.safe_load; [None]: it raises *)
  py_str : value → str;                      (* str(v) for v not a string *)
  spec : Type;                               (* pathspec.PathSpec *)
  from_lines : list str → spec;              (* PathSpec.from_lines('gitwildmatch', _) *)
  spec_truthy : spec → bool;                 (* bool(spec), its __len__ *)
  match_file : spec → str → bool;            (* spec.match_file *)
  re_fullmatch : str → str → bool;           (* re.compile(r).fullmatch(s) is not None *)
  relpath : str → str → str;                 (* os.path.relpath *)
  abspath : str → str;                       (* os.path.abspath *)
}.

(** The file system of one run. *)
Record Disk := {
  exists_ : str → bool;                      (* os.path.exists *)
  read_file : str → source;                  (* open(path, 'r', encoding='utf-8') *)
  listing : str → option tree;               (* os.walk(base_dir); [None]: nothing to walk *)
  getcwd : str;                              (* os.getcwd() *)
}.

(** Truth value of a Python object *)
Definition truthy (v : value) : bool :=
  match v with
  | VNull => false
  | VBool b => b
  | VNum z => negb (z =? 0)%Z
  | VStr s => match s with [] => false | _ => true end
  | VList l => match l with [] => false | _ => true end
  | VDict d => match d with [] => false | _ => true end
  end.

(** [d.get(key)] on the fields of a mapping *)
Fixpoint dict_get (key : str) (d : list (str * value)) : option value :=
  match d with
  | [] => None
  | (k, v) :: d' => if bool_decide (k = key) then Some v else dict_get key d'
  end.

(** [obj.get(key, dflt)]: only a mapping has [get]. *)
Definition get (obj : value) (key : str) (dflt : value) : outcome value :=
  match obj with
  | VDict d => Returned (default dflt (dict_get key d))
  | _ => Raised AttributeError
  end.

(** [str(v)] *)
Definition to_str (R : Runtime) (v : value) : str :=
  match v with
  | VStr s => s
  | _ => py_str R v
  end.

(** [a == b] on values: a mapping compares without regard to the order
    of its fields, [True] and [False] are the numbers 1 and 0. *)
Fixpoint py_eq (a b : value) {struct a} : bool :=
  match a, b with
  | VNull, VNull => true
  | VBool x, VBool y => bool_decide (x = y)
  | VBool x, VNum z | VNum z, VBool x => (z =? (if x then 1 else 0))%Z
  | VNum x, VNum y => (x =? y)%Z
  | VStr x, VStr y => bool_decide (x = y)
  | VList x, VList y =>
      (fix go (x y : list value) {struct x} : bool :=
         match x, y with
         | [], [] => true
         | u :: x', v :: y' => py_eq u v && go x' y'
         | _, _ => false
         end) x y
  | VDict x, VDict y =>
      bool_decide (length x = length y) &&
      (fix go (x : list (str * value)) : bool :=
         match x with
         | [] => true
         | (k, u) :: x' =>
             match dict_get k y with
             | Some v => py_eq u v && go x'
             | None => false
             end
         end) x
  | _, _ => false
  end.

(** ** Path discovery *)

(** [load_global_gitignore] *)
Definition load_global_gitignore (R : Runtime) (D : Disk) (base_dir : str)
  : outcome (option (spec R)) :=
  let gitignore_path := Path.join base_dir (lit ".gitignore") in
  if exists_ D gitignore_path then
    match read_file D gitignore_path with
    | Text t => Returned (Some (from_lines R (Text.splitlines [] t)))
    | Fails _ => Raised ReadError
    end
  else Returned None.

(** [bool(s) and s.match_file(name)] for an optional spec *)
Definition spec_matches (R : Runtime) (s : option (spec R)) (name : str) : bool :=
  match s with
  | Some sp => spec_truthy R sp && match_file R sp name
  | None => false
  end.

(** The local [.gitignore] of directory [root]: lines 29-39 of the walk. *)
Definition local_spec (R : Runtime) (D : Disk) (root : str)
  : list event * option (spec R) :=
  let local_gitignore := Path.join root (lit ".gitignore") in
  if exists_ D local_gitignore then
    match read_file D local_gitignore with
    | Text t =>
        match Text.splitlines [] t with
        | [] => ([], None)
        | patterns => ([], Some (from_lines R patterns))
        end
    | Fails _ => ([ErrorProcessing local_gitignore], None)
    end
  else ([], None).

(** [os.path.relpath(root, base_dir)] for a directory [rel] below the base *)
Definition rel_root (rel : list str) : str :=
  match rel with
  | [] => lit "."
  | _ => Text.join [Path.sep] rel
  end.

(** [walk_with_gitignore]: the triples it yields, top down, and what it
    prints.  [root] is the directory [t] lists and [rel] its path below
    [base_dir], by components. *)
Fixpoint walk_with_gitignore (R : Runtime) (D : Disk) (global_spec : option (spec R))
    (root : str) (rel : list str) (t : tree)
  : list event * list (str * list str * list str) :=
  match t with
  | Dir dirs files =>
    if match rel with [] => false | _ => spec_matches R global_spec (rel_root rel) end
    then ([], [])
    else
      let '(ev, local) := local_spec R D root in
      let kept name := negb (spec_matches R local name) in
      let below :=
        (fix go (ds : list (str * tree)) : list event * list (str * list str * list str) :=
           match ds with
           | [] => ([], [])
           | (d, sub) :: ds' =>
               if kept d then
                 let '(e1, y1) := walk_with_gitignore R D global_spec
                                    (Path.join root d) (rel ++ [d]) sub in
                 let '(e2, y2) := go ds' in
                 (e1 ++ e2, y1 ++ y2)
               else go ds'
           end) dirs in
      (ev ++ below.1,
       (root, List.filter kept (dirs.*1), List.filter kept files) :: below.2)
  end.

(** A pattern that is a plain text once its escapes are read: every
    character stands for itself, a backslash makes the punctuation mark
    after it do so.  [None] for every other pattern. *)
Module Regex.

Definition is_special (c : char) : bool :=
  bool_decide (c ∈ lit ".^$*+?{}[]\|()").

Definition is_alnum (c : char) : bool :=
  ((48 <=? c) && (c <=? 57) || (65 <=? c) && (c <=? 90)
   || (97 <=? c) && (c <=? 122) || (128 <=? c))%N.

Fixpoint literal (r : str) : option str :=
  match r with
  | [] => Some []
  | c :: r' =>
      if (c =? backslash)%N then
        match r' with
        | e :: r'' => if is_alnum e then None else cons e <$> literal r''
        | [] => None
        end
      else if is_special c then None
      else cons c <$> literal r'
  end.

End Regex.

(** [re.compile(regex).fullmatch(name)] *)
Definition fullmatch (R : Runtime) (regex name : str) : bool :=
  match Regex.literal regex with
  | Some l => bool_decide (name = l)
  | None => re_fullmatch R regex name
  end.

(** [find_files] *)
Definition find_files (R : Runtime) (D : Disk) (base_dir filename_regex : str)
    (global_spec : option (spec R)) : list event * list str :=
  match listing D base_dir with
  | None => ([], [])
  | Some t =>
      let '(ev, yielded) := walk_with_gitignore R D global_spec base_dir [] t in
      (ev, yielded ≫= λ '(root, _, files),
             Path.join root <$> List.filter (fullmatch R filename_regex) files)
  end.

(** ** The tolerant JSON reader *)

(** After an opening quote: the rest of the string literal, closing
    quote included, and the text behind it.  A backslash takes the next
    character with it.  [None]: the literal is not closed. *)
Fixpoint string_tail (s : str) : option (str * str) :=
  match s with
  | [] => None
  | c :: s' =>
      if (c =? dquote)%N then Some ([c], s')
      else if (c =? backslash)%N then
        match s' with
        | e :: s'' => prod_map (λ b, c :: e :: b) id <$> string_tail s''
        | [] => None
        end
      else prod_map (cons c) id <$> string_tail s'
  end.

(** From behind [//]: the text from the end of the line on. *)
Fixpoint line_rest (s : str) : str :=
  match s with
  | [] => []
  | c :: s' => if (c =? nl)%N then s else line_rest s'
  end.

(** [re.sub(pattern, replacer, text)] of [remove_json_comments]: at each
    position a string literal is tried first and copied, then a block
    comment and a line comment, which are dropped; any other character
    is copied. *)
Fixpoint strip_comments (fuel : nat) (s : str) : str :=
  match fuel with
  | 0 => s
  | S fuel =>
    match s with
    | [] => []
    | c :: s' =>
      if (c =? dquote)%N then
        match string_tail s' with
        | Some (b, r) => c :: b ++ strip_comments fuel r
        | None => c :: strip_comments fuel s'
        end
      else if (c =? 47)%N then
        match s' with
        | d :: s'' =>
            if (d =? 42)%N then
              match Text.cut (lit "*/") s'' with
              | Some (_, r) => strip_comments fuel r
              | None => c :: strip_comments fuel s'
              end
            else if (d =? 47)%N then strip_comments fuel (line_rest s'')
            else c :: strip_comments fuel s'
        | [] => [c]
        end
      else c :: strip_comments fuel s'
    end
  end.

Definition remove_json_comments (text : str) : str :=
  strip_comments (length text) text.

(** [re.sub(r',\s*([}\]])', r'\1', text)] *)
Fixpoint strip_commas (fuel : nat) (s : str) : str :=
  match fuel with
  | 0 => s
  | S fuel =>
    match s with
    | [] => []
    | c :: s' =>
      if (c =? 44)%N then
        match Text.lstrip s' with
        | k :: r =>
            if (k =? 125)%N || (k =? 93)%N then k :: strip_commas fuel r
            else c :: strip_commas fuel s'
        | [] => c :: strip_commas fuel s'
        end
      else c :: strip_commas fuel s'
    end
  end.

Definition remove_trailing_commas (text : str) : str :=
  strip_commas (length text) text.

(** [parse_json_file]: the value returned ([VNull] for [None]) and what
    is printed. *)
Definition parse_json_file (R : Runtime) (D : Disk) (file_path : str)
  : list event * value :=
  match read_file D file_path with
  | Fails _ => ([ErrorReading file_path], VNull)
  | Text t =>
      match json_loads R t with
      | Loaded v => ([], v)
      | DecodeError =>
          match read_file D file_path with
          | Text text =>
              let text := remove_json_comments text in
              let text := remove_trailing_commas text in
              match json_loads R text with
              | Loaded v => ([], v)
              | _ => ([ErrorAfterCleaning file_path], VNull)
              end
          | Fails _ => ([ErrorAfterCleaning file_path], VNull)
          end
      | OtherError => ([ErrorReading file_path], VNull)
      end
  end.

(** [parse_yaml_file] *)
Definition parse_yaml_file (R : Runtime) (D : Disk) (file_path : str)
  : list event * value :=
  match read_file D file_path with
  | Fails _ => ([ErrorReading file_path], VNull)
  | Text t =>
      match yaml_safe_load R t with
      | Some v => ([], v)
      | None => ([ErrorReading file_path], VNull)
      end
  end.

(** ** Table renderers and the inline sub-tables *)

(** [l[i]] *)
Definition index {A} (l : list A) (i : nat) : outcome A :=
  match l !! i with
  | Some x => Returned x
  | None => Raised IndexError
  end.

(** [any(row[col_index].strip() for row in rows)] *)
Fixpoint any_cell (col_index : nat) (rows : list (list str)) : outcome bool :=
  match rows with
  | [] => Returned false
  | row :: rows' =>
      cell ←! index row col_index;
      match Text.strip cell with
      | [] => any_cell col_index rows'
      | _ => Returned true
      end
  end.

(** The loop over [range(num_cols)] that fills [non_empty_cols] *)
Fixpoint non_empty_cols (rows : list (list str)) (cols : list nat) : outcome (list nat) :=
  match cols with
  | [] => Returned []
  | col_index :: cols' =>
      b ←! any_cell col_index rows;
      rest ←! non_empty_cols rows cols';
      Returned (if b then col_index :: rest else rest)
  end.

Definition th (h : str) : str :=
  lit "<th style='border: 1px solid #ddd; padding:4px;'>" ++ h ++ lit "</th>".
Definition td (cell : str) : str :=
  lit "<td style='border: 1px solid #ddd; padding:4px;'>" ++ cell ++ lit "</td>".
Definition tr (cells : list str) : str :=
  lit "<tr>" ++ concat cells ++ lit "</tr>".

(** [generate_html_table] *)
Definition generate_html_table (headers : list str) (rows : list (list str)) : outcome str :=
  match rows with
  | [] => Returned []
  | _ =>
      let num_cols := length headers in
      non_empty_cols ←! non_empty_cols rows (seq 0 num_cols);
      new_headers ←! traverse (index headers) non_empty_cols;
      new_rows ←! traverse (λ row, traverse (index row) non_empty_cols) rows;
      Returned (lit "<table style='border-collapse: collapse;'>"
                ++ tr (th <$> new_headers)
                ++ concat ((λ row, tr (td <$> row)) <$> new_rows)
                ++ lit "</table>")
  end.

(** [generate_markdown_table] *)
Definition md_line (cells : list str) : str :=
  lit "| " ++ Text.join (lit " | ") cells ++ lit " |" ++ [nl].

Definition generate_markdown_table (headers : list str) (rows : list (list str)) : str :=
  md_line headers
  ++ md_line (replicate (length headers) (lit "---"))
  ++ concat (md_line <$> rows).

(** [format_devcontainer_extensions] *)
Definition store_link (ext : str) : str :=
  lit "<a href=" ++ [dquote]
  ++ lit "https://marketplace.visualstudio.com/items?itemName=" ++ ext ++ [dquote]
  ++ lit " target=" ++ [dquote] ++ lit "_blank" ++ [dquote] ++ lit ">" ++ ext ++ lit "</a>".

Definition extension_rows (ext : value) : outcome (list (list str)) :=
  match ext with
  | VStr ext =>
      let ext := Text.strip ext in
      Returned (match ext with [] => [] | _ => [[ext; store_link ext]] end)
  | _ => Raised AttributeError
  end.

Definition format_devcontainer_extensions (extensions_list : list value) : outcome str :=
  match extensions_list with
  | [] => Returned []
  | _ =>
      rows ←! traverse extension_rows extensions_list;
      generate_html_table [lit "Name"; lit "Store Link"] (concat rows)
  end.

(** The order of [str]: by code point, a proper prefix first. *)
Fixpoint str_leb (a b : str) : bool :=
  match a, b with
  | [], _ => true
  | _ :: _, [] => false
  | x :: a', y :: b' => (x <? y)%N || ((x =? y)%N && str_leb a' b')
  end.

Definition str_le : relation str := λ a b, Is_true (str_leb a b).

#[global] Instance str_le_dec : RelDecision str_le.
Proof. intros a b. unfold str_le. apply _. Defined.

(** [sorted(xs)] for strings *)
Definition sorted (xs : list str) : list str := merge_sort str_le xs.

Definition check_mark : char := 10003%N.
Definition backtick : char := 96%N.

(** [default not in [None, ""]] *)
Definition is_set (default : value) : bool :=
  match default with
  | VNull | VStr [] => false
  | _ => true
  end.

(** The text of the options cell, lines 140-154 *)
Definition options_str (R : Runtime) (default options : value) : str :=
  if truthy options then
    match options with
    | VList opts =>
        Text.join (lit " ")
          ((λ opt,
              if is_set default && bool_decide (to_str R opt = to_str R default)
              then [backtick] ++ to_str R opt ++ [backtick; check_mark]
              else [backtick] ++ to_str R opt ++ [backtick]) <$> opts)
    | _ =>
        if is_set default && py_eq options default
        then [backtick] ++ to_str R options ++ [check_mark; backtick]
        else [backtick] ++ to_str R options ++ [backtick]
    end
  else [].

(** One pass of the loop of [format_inputs_table]: the row of [input_id] *)
Definition input_row (R : Runtime) (input_definitions : list (str * value))
    (input_id : str) : outcome (list str) :=
  match dict_get input_id input_definitions with
  | Some inp =>
      description ←! get inp (lit "description") (VStr []);
      desc ←! match description with
              | VStr d => Returned (Text.strip d)
              | _ => Raised AttributeError
              end;
      default ←! get inp (lit "default") VNull;
      options ←! get inp (lit "options") VNull;
      Returned [input_id; desc; options_str R default options]
  | None => Returned [input_id; []; []]
  end.

(** [format_inputs_table] *)
Definition format_inputs_table (R : Runtime) (input_ids : gset str)
    (input_definitions : list (str * value)) : outcome str :=
  rows ←! traverse (input_row R input_definitions) (sorted (elements input_ids));
  match rows with
  | [] => Returned []
  | _ => generate_html_table [lit "Name"; lit "Description"; lit "Options"] rows
  end.

(** [for x in v]: the items of a list, the characters of a string, the
    keys of a mapping *)
Definition iter_values (v : value) : outcome (list value) :=
  match v with
  | VList l => Returned l
  | VStr s => Returned ((λ c, VStr [c]) <$> s)
  | VDict d => Returned (VStr <$> d.*1)
  | _ => Raised TypeError
  end.

(** [format_volumes_table] *)
Definition format_host (host : str) : str :=
  if bool_decide (host = lit ".") then lit "(Project directory)" else host.

Definition volume_row (vol : value) : outcome (list str) :=
  match vol with
  | VStr vol =>
      let parts := Text.split_on 58%N [] vol in
      Returned [format_host (default [] (parts !! 0));
                default [] (parts !! 1);
                default [] (parts !! 2)]
  | _ => Raised AttributeError
  end.

Definition format_volumes_table (volumes_list : value) : outcome str :=
  vols ←! iter_values volumes_list;
  rows ←! traverse volume_row vols;
  match rows with
  | [] => Returned []
  | _ => generate_html_table [lit "Host"; lit "Container"; lit "Mode"] rows
  end.

(** [format_env_table] *)
Definition format_env_table (env_filtered : list (str * str)) : outcome str :=
  let rows := (λ key, [[backtick; 36%N] ++ key ++ [backtick]]) <$> sorted (env_filtered.*1) in
  match rows with
  | [] => Returned []
  | _ => generate_html_table [lit "Host ENV variable"] rows
  end.

(** ** Extractors *)

(** [re.findall(r"\$\{input:([^}]+)\}", s)]: the names between
    [${input:] and the nearest closing brace, where that name is not
    empty; the search resumes behind the brace. *)
Fixpoint findall_inputs (fuel : nat) (s : str) : list str :=
  match fuel with
  | 0 => []
  | S fuel =>
    match s with
    | [] => []
    | _ :: s' =>
        if Text.startswith (lit "${input:") s then
          match Text.cut [125%N] (drop 8 s) with
          | Some (name, rest) =>
              match name with
              | [] => findall_inputs fuel s'
              | _ => name :: findall_inputs fuel rest
              end
          | None => findall_inputs fuel s'
          end
        else findall_inputs fuel s'
    end
  end.

(** [extract_all_input_ids] *)
Fixpoint extract_all_input_ids (obj : value) : gset str :=
  match obj with
  | VDict d =>
      (fix go (d : list (str * value)) : gset str :=
         match d with
         | [] => ∅
         | (_, v) :: d' => extract_all_input_ids v ∪ go d'
         end) d
  | VList l =>
      (fix go (l : list value) : gset str :=
         match l with
         | [] => ∅
         | item :: l' => extract_all_input_ids item ∪ go l'
         end) l
  | VStr s => list_to_set (findall_inputs (length s) s)
  | _ => ∅
  end.

(** [key in obj] *)
Definition contains_key (key : str) (obj : value) : outcome bool :=
  match obj with
  | VDict d => Returned (bool_decide (is_Some (dict_get key d)))
  | VStr s => Returned (Text.contains key s)
  | VList l => Returned (existsb (py_eq (VStr key)) l)
  | _ => Raised TypeError
  end.

(** [d[key] = v] on the fields of a mapping: a key keeps its place. *)
Fixpoint dict_set (key : str) (v : value) (d : list (str * value)) : list (str * value) :=
  match d with
  | [] => [(key, v)]
  | (k, u) :: d' =>
      if bool_decide (k = key) then (k, v) :: d' else (k, u) :: dict_set key v d'
  end.

(** [{inp.get("id"): inp for inp in inputs_list if "id" in inp}].  Only
    the entries under a string are kept: no other key is ever looked
    up.  A list or a mapping as key is unhashable. *)
Fixpoint collect_definitions (acc : list (str * value)) (inputs : list value)
  : outcome (list (str * value)) :=
  match inputs with
  | [] => Returned acc
  | inp :: inputs' =>
      has_id ←! contains_key (lit "id") inp;
      if has_id then
        id ←! get inp (lit "id") VNull;
        match id with
        | VStr k => collect_definitions (dict_set k inp acc) inputs'
        | VList _ | VDict _ => Raised TypeError
        | _ => collect_definitions acc inputs'
        end
      else collect_definitions acc inputs'
  end.

Definition input_definitions_of (inputs_list : value) : outcome (list (str * value)) :=
  inputs ←! iter_values inputs_list;
  collect_definitions [] inputs.

(** [input_details]: lines 216-218 *)
Definition input_details (R : Runtime) (input_definitions : list (str * value))
    (entry : value) : outcome str :=
  let input_ids := extract_all_input_ids entry in
  if bool_decide (input_ids = ∅) then Returned []
  else format_inputs_table R input_ids input_definitions.

Record task_info := {
  task_label : value;
  task_detail : value;
  task_command : value;
  task_inputs : str;
}.

(** One pass of the loop of [parse_vscode_tasks] *)
Definition task_record (R : Runtime) (input_definitions : list (str * value))
    (task : value) : outcome task_info :=
  label ←! get task (lit "label") (VStr []);
  detail ←! get task (lit "detail") (VStr []);
  command ←! get task (lit "command") (VStr []);
  command ←! (if truthy command then
                match command with
                | VStr c => Returned (VStr ([backtick] ++ Path.basename c ++ [backtick]))
                | _ => Raised TypeError
                end
              else Returned command);
  inputs ←! input_details R input_definitions task;
  Returned {| task_label := label; task_detail := detail;
              task_command := command; task_inputs := inputs |}.

(** [parse_vscode_tasks] *)
Definition parse_vscode_tasks (R : Runtime) (D : Disk) (file_path : str)
  : list event * outcome (list task_info) :=
  let '(ev, data) := parse_json_file R D file_path in
  (ev,
   if negb (truthy data) then Returned []
   else
     '(input_definitions, tasks) ←!
        match data with
        | VDict _ =>
            inputs_list ←! get data (lit "inputs") (VList []);
            input_definitions ←! input_definitions_of inputs_list;
            tasks ←! get data (lit "tasks") (VList []);
            Returned (input_definitions, tasks)
        | _ => Returned ([], data)
        end;
     tasks ←! iter_values tasks;
     traverse (task_record R input_definitions) tasks).

Record launch_info := {
  launch_name : value;
  launch_type : value;
  launch_inputs : str;
}.

Definition launch_record (R : Runtime) (input_definitions : list (str * value))
    (config : value) : outcome launch_info :=
  name ←! get config (lit "name") (VStr []);
  type_ ←! get config (lit "type") (VStr []);
  inputs ←! input_details R input_definitions config;
  Returned {| launch_name := name; launch_type := type_; launch_inputs := inputs |}.

(** [parse_vscode_launch] *)
Definition parse_vscode_launch (R : Runtime) (D : Disk) (file_path : str)
  : list event * outcome (list launch_info) :=
  let '(ev, data) := parse_json_file R D file_path in
  (ev,
   if negb (truthy data) then Returned []
   else
     '(input_definitions, configurations) ←!
        match data with
        | VDict d =>
            input_definitions ←!
              (if bool_decide (is_Some (dict_get (lit "inputs") d)) then
                 inputs_list ←! get data (lit "inputs") (VList []);
                 input_definitions_of inputs_list
               else Returned []);
            configurations ←! get data (lit "configurations") (VList []);
            Returned (input_definitions, configurations)
        | _ => Returned ([], data)
        end;
     configurations ←! iter_values configurations;
     traverse (launch_record R input_definitions) configurations).

Record dev_info := {
  dev_extensions : str;
  dev_file : str;
}.

(** [list(dict.fromkeys(items))]: the first occurrence of every item, in
    order; a list or a mapping is unhashable. *)
Fixpoint fromkeys (acc items : list value) : outcome (list value) :=
  match items with
  | [] => Returned acc
  | x :: items' =>
      match x with
      | VList _ | VDict _ => Raised TypeError
      | _ => fromkeys (if existsb (py_eq x) acc then acc else acc ++ [x]) items'
      end
  end.

(** Lines 262-266 of [parse_devcontainer]: the value bound to
    [extensions], [None] when no assignment is reached. *)
Definition bound_extensions (data : value) : outcome (option value) :=
  customizations ←! get data (lit "customizations") (VDict []);
  match customizations with
  | VDict _ =>
      vscode_custom ←! get customizations (lit "vscode") (VDict []);
      match vscode_custom with
      | VDict _ =>
          extensions ←! get vscode_custom (lit "extensions") (VList []);
          Returned (Some extensions)
      | _ => Returned None
      end
  | _ => Returned None
  end.

(** [parse_devcontainer]; [Returned None] is the empty mapping. *)
Definition parse_devcontainer (R : Runtime) (D : Disk) (file_path : str)
  : list event * outcome (option dev_info) :=
  let '(ev, data) := parse_json_file R D file_path in
  (ev,
   if negb (truthy data) then Returned None
   else
     bound ←! bound_extensions data;
     extensions ←! match bound with
                   | Some extensions => Returned extensions
                   | None => Raised UnboundLocalError
                   end;
     items ←! iter_values extensions;
     extensions ←! fromkeys [] items;
     extensions ←! format_devcontainer_extensions extensions;
     Returned (Some {| dev_extensions := extensions;
                       dev_file := relpath R file_path (getcwd D) |})).

Record dockerfile_info := {
  base_image : str;
  exposed_ports : str;
}.

(** One pass of the loop of [parse_dockerfile] over
    [(base_image, exposed_ports)] *)
Definition dockerfile_line (st : str * list str) (line : str) : str * list str :=
  let line := Text.strip line in
  if Text.startswith (lit "FROM") (Text.upper line) then
    let parts := Text.split line in
    match parts !! 1 with
    | Some image => (image, st.2)
    | None => st
    end
  else if Text.startswith (lit "EXPOSE") (Text.upper line) then
    let ports := drop 1 (Text.split line) in
    (st.1, st.2 ++ ports)
  else st.

(** The record [parse_dockerfile] returns for the lines it read *)
Definition dockerfile_of_lines (lines : list str) : dockerfile_info :=
  let st := foldl dockerfile_line ([], []) lines in
  {| base_image := st.1; exposed_ports := Text.join (lit ", ") st.2 |}.

(** [parse_dockerfile] *)
Definition parse_dockerfile (D : Disk) (file_path : str) : list event * dockerfile_info :=
  match read_file D file_path with
  | Text t => ([], dockerfile_of_lines (Text.file_lines [] t))
  | Fails seen =>
      ([ErrorReadingDockerfile file_path], dockerfile_of_lines (Text.file_lines [] seen))
  end.

Record service_info := {
  svc_service : str;
  svc_image : value;
  svc_ports : str;
  svc_volumes : str;
  svc_environment : str;
  svc_build : value;
}.

(** Lines 302-308: an environment given as a list of [KEY=VALUE] *)
Fixpoint env_of_list (env_dict : list (str * value)) (items : list value)
  : outcome (list (str * value)) :=
  match items with
  | [] => Returned env_dict
  | item :: items' =>
      has_eq ←! contains_key [61%N] item;
      if has_eq then
        match item with
        | VStr s =>
            match Text.cut [61%N] s with
            | Some (key, val) => env_of_list (dict_set key (VStr val) env_dict) items'
            | None => env_of_list env_dict items'
            end
        | _ => Raised AttributeError
        end
      else env_of_list env_dict items'
  end.

(** [{k: v for k, v in env_vars.items() if isinstance(v, str) and "${" in v}] *)
Definition env_filtered (env_vars : list (str * value)) : list (str * str) :=
  env_vars ≫= λ '(k, v),
    match v with
    | VStr v => if Text.contains (lit "${") v then [(k, v)] else []
    | _ => []
    end.

(** [', '.join(ports) if ports else ""] *)
Definition join_ports (ports : value) : outcome str :=
  if truthy ports then
    items ←! iter_values ports;
    parts ←! traverse (λ p, match p with VStr p => Returned p | _ => Raised TypeError end) items;
    Returned (Text.join (lit ", ") parts)
  else Returned [].

(** One pass of the loop of [parse_docker_compose] *)
Definition service_record (service_name : str) (service : value) : outcome service_info :=
  image ←! get service (lit "image") (VStr (lit "(custom)"));
  ports ←! get service (lit "ports") (VList []);
  env_vars ←! get service (lit "environment") (VDict []);
  env_vars ←! match env_vars with
              | VList items => env_dict ←! env_of_list [] items; Returned (VDict env_dict)
              | _ => Returned env_vars
              end;
  env_filtered ←! match env_vars with
                  | VDict d => Returned (env_filtered d)
                  | _ => Raised AttributeError
                  end;
  env_str ←! format_env_table env_filtered;
  svc_volumes ←! get service (lit "volumes") (VList []);
  volumes_str ←! format_volumes_table svc_volumes;
  build_prop ←! get service (lit "build") VNull;
  ports ←! join_ports ports;
  Returned {| svc_service := service_name; svc_image := image; svc_ports := ports;
              svc_volumes := volumes_str; svc_environment := env_str;
              svc_build := build_prop |}.

(** [data["services"]], reached once ["services" in data] holds *)
Definition services_of (data : value) : outcome value :=
  match data with
  | VDict d => Returned (default VNull (dict_get (lit "services") d))
  | _ => Raised TypeError
  end.

(** [v.items()] *)
Definition items (v : value) : outcome (list (str * value)) :=
  match v with
  | VDict d => Returned d
  | _ => Raised AttributeError
  end.

(** [parse_docker_compose]: the list under ["services"] of the mapping
    it returns *)
Definition parse_docker_compose (R : Runtime) (D : Disk) (file_path : str)
  : list event * outcome (list service_info) :=
  let '(ev, data) := parse_yaml_file R D file_path in
  (ev,
   if negb (truthy data) then Returned []
   else
     has_services ←! contains_key (lit "services") data;
     if negb has_services then Returned []
     else
       services ←! services_of data;
       services ←! items services;
       traverse (λ '(service_name, service), service_record service_name service) services).

(** ** The document patcher ([update_readme_table]) *)

Definition start_marker : str := lit "<!-- README_DEVINFO:START -->".
Definition end_marker : str := lit "<!-- README_DEVINFO:END -->".

(** *** [re.sub] with a string replacement

    A replacement string is a template: [re.sub] parses it before it
    looks for a match (CPython 3.12, [re._parser.parse_template]).  The
    pattern of the patcher has no capture group, so group 0 is the only
    group a template may name. *)
Module Template.

Inductive item :=
  | Lit (c : char)
  | Group0.

Definition is_digit (c : char) : bool := ((48 <=? c) && (c <=? 57))%N.
Definition is_octdigit (c : char) : bool := ((48 <=? c) && (c <=? 55))%N.
Definition is_ascii_letter (c : char) : bool :=
  ((65 <=? c) && (c <=? 90) || (97 <=? c) && (c <=? 122))%N.

(** [ESCAPES]: the escapes a template turns into one character. *)
Definition escape (c : char) : option char :=
  (if c =? 97 then Some 7          (* \a *)
   else if c =? 98 then Some 8     (* \b *)
   else if c =? 102 then Some 12   (* \f *)
   else if c =? 110 then Some 10   (* \n *)
   else if c =? 114 then Some 13   (* \r *)
   else if c =? 116 then Some 9    (* \t *)
   else if c =? 118 then Some 11   (* \v *)
   else if c =? 92 then Some 92    (* \\ *)
   else None)%N.

Definition oct (c : char) : N := (c - 48)%N.

(** [parse fuel t]: the items of template [t], or [None] where
    [parse_template] raises [re.error] (or [IndexError] for a group
    name).  Every step consumes a character, so [length t] is enough
    fuel. *)
Fixpoint parse (fuel : nat) (t : str) : option (list item) :=
  match fuel with
  | 0 => match t with [] => Some [] | _ => None end
  | S fuel =>
    match t with
    | [] => Some []
    | c :: r =>
      if negb (c =? backslash)%N then cons (Lit c) <$> parse fuel r
      else
        match r with
        | [] => None                                  (* bad escape (end of pattern) *)
        | e :: r =>
          if (e =? 103)%N then                        (* \g<name> *)
            match r with
            | lt :: r =>
              if (lt =? 60)%N then
                match Text.cut [62%N] r with
                | Some (name, r) =>
                    match name with
                    | [] => None                      (* missing group name *)
                    | _ =>
                      if forallb (N.eqb 48) name      (* the number 0 *)
                      then cons Group0 <$> parse fuel r
                      else None                       (* invalid or unknown group *)
                    end
                | None => None                        (* missing > *)
                end
              else None                               (* missing < *)
            | [] => None
            end
          else if (e =? 48)%N then                    (* \0, \0o, \0oo *)
            match r with
            | o1 :: r1 =>
              if is_octdigit o1 then
                match r1 with
                | o2 :: r2 =>
                  if is_octdigit o2
                  then cons (Lit ((8 * oct o1 + oct o2) `mod` 256)%N) <$> parse fuel r2
                  else cons (Lit (oct o1)) <$> parse fuel r1
                | [] => cons (Lit (oct o1)) <$> parse fuel r1
                end
              else cons (Lit 0%N) <$> parse fuel r
            | [] => cons (Lit 0%N) <$> parse fuel r
            end
          else if is_digit e then                     (* \1 .. \9 *)
            match r with
            | d1 :: r1 =>
              if is_digit d1 then
                match r1 with
                | d2 :: r2 =>
                  if is_octdigit e && is_octdigit d1 && is_octdigit d2 then
                    let v := (64 * oct e + 8 * oct d1 + oct d2)%N in
                    if (255 <? v)%N then None         (* octal escape out of range *)
                    else cons (Lit v) <$> parse fuel r2
                  else None                           (* invalid group reference *)
                | [] => None
                end
              else None
            | [] => None
            end
          else
            match escape e with
            | Some x => cons (Lit x) <$> parse fuel r
            | None =>
                if is_ascii_letter e then None        (* bad escape *)
                else (λ k, Lit backslash :: Lit e :: k) <$> parse fuel r
            end
        end
    end
  end.

Definition parse_template (t : str) : option (list item) := parse (length t) t.

(** The text a template stands for at a match [m]. *)
Definition expand (tpl : list item) (m : str) : str :=
  tpl ≫= λ i, match i with Lit c => [c] | Group0 => m end.

End Template.

(** [re.sub(re.escape(start) + ".*?" + re.escape(end), repl, s, flags=re.DOTALL)]
    once [repl] is parsed: the leftmost start marker that has an end
    marker after it opens a match, which the lazy [.*?] closes at the
    nearest end marker; the search resumes behind the match. *)
Fixpoint sub_markers (fuel : nat) (tpl : list Template.item) (s : str) : str :=
  match fuel with
  | 0 => s
  | S fuel =>
    match Text.cut start_marker s with
    | None => s
    | Some (pre, r) =>
      match Text.cut end_marker r with
      | None => s
      | Some (old, post) =>
          pre ++ Template.expand tpl (start_marker ++ old ++ end_marker)
              ++ sub_markers fuel tpl post
      end
    end
  end.

Definition re_sub_markers (repl s : str) : option str :=
  tpl ← Template.parse_template repl;
  Some (sub_markers (length s) tpl s).

Definition wrapped_section (new_section : str) : str :=
  start_marker ++ [nl] ++ new_section ++ [nl] ++ end_marker.

(** Lines 336-348 of [update_readme_table]: the text to write, given the
    text of the target document ([None] when the file does not exist). *)
Definition new_content (new_section : str) (readme : option str) : outcome str :=
  let wrapped_section := wrapped_section new_section in
  match readme with
  | Some content =>
      if Text.contains start_marker content && Text.contains end_marker content
      then match re_sub_markers wrapped_section content with
           | Some new_content => Returned new_content
           | None => Raised ReError
           end
      else Returned (content ++ [nl; nl] ++ wrapped_section)
  | None => Returned wrapped_section
  end.

(** What is printed and what may be raised, together *)
Definition run (A : Type) : Type := list event * outcome A.

Definition rbind {A B} (m : run A) (k : A → run B) : run B :=
  match m with
  | (ev, Returned a) => let '(ev', r) := k a in (ev ++ ev', r)
  | (ev, Raised e) => (ev, Raised e)
  end.

Definition quiet {A} (o : outcome A) : run A := ([], o).

Notation "x ←: m ; k" := (rbind m (λ x, k))
  (at level 20, m at level 100, k at level 200, right associativity,
   format "x  ←:  m ;  '/' k").

(** The document as the patcher finds it *)
Definition read_document (D : Disk) (readme_path : str) : outcome (option str) :=
  if exists_ D readme_path then
    match read_file D readme_path with
    | Text content => Returned (Some content)
    | Fails _ => Raised ReadError
    end
  else Returned None.

(** [open(path, "w").write(content)].  The directory listing is kept:
    the document is none of the file names the walk looks for. *)
Definition write_file (D : Disk) (path content : str) : Disk :=
  {| exists_ := λ p, if bool_decide (p = path) then true else exists_ D p;
     read_file := λ p, if bool_decide (p = path) then Text content else read_file D p;
     listing := listing D;
     getcwd := getcwd D |}.

(** [update_readme_table]: the file system it leaves *)
Definition update_readme_table (D : Disk) (new_section readme_path : str) : run Disk :=
  readme ←: quiet (read_document D readme_path);
  new_content ←: quiet (new_content new_section readme);
  ([InfoUpdated readme_path], Returned (write_file D readme_path new_content)).

(** ** The orchestrator ([main]) *)

Record Args := {
  arg_base_dir : str;      (* base_dir, "." by default *)
  arg_unified : bool;      (* --unified *)
}.

Definition comp_file : str := lit "docker-compose.yml".
Definition readme_path : str := lit "README.md".

(** [v.values()] *)
Definition values (v : value) : outcome (list value) :=
  match v with
  | VDict d => Returned (d.*2)
  | _ => Raised AttributeError
  end.

(** Lines 370-377: the build files the compose file names *)
Fixpoint named_dockerfiles (R : Runtime) (services : list value) : outcome (gset str) :=
  match services with
  | [] => Returned ∅
  | service :: services' =>
      build_prop ←! get service (lit "build") VNull;
      this ←! match build_prop with
              | VDict b =>
                  match dict_get (lit "dockerfile") b with
                  | Some (VStr f) =>
                      Returned ({[ abspath R (Path.join (Path.dirname comp_file) f) ]} : gset str)
                  | Some _ => Raised TypeError
                  | None => Returned ∅
                  end
              | _ => Returned ∅
              end;
      rest ←! named_dockerfiles R services';
      Returned (this ∪ rest)
  end.

Definition additional_dockerfiles (R : Runtime) (data : value) : outcome (gset str) :=
  if truthy data then
    has_services ←! contains_key (lit "services") data;
    if has_services then
      services ←! services_of data;
      services ←! values services;
      named_dockerfiles R services
    else Returned ∅
  else Returned ∅.

(** [for file in files: data.extend(parse(file))] *)
Fixpoint extend_all {A} (parse : str → run (list A)) (files : list str) : run (list A) :=
  match files with
  | [] => quiet (Returned [])
  | file :: files' =>
      found ←: parse file;
      rest ←: extend_all parse files';
      quiet (Returned (found ++ rest))
  end.

(** A cell that [" | ".join(row)] accepts *)
Definition cell (v : value) : outcome str :=
  match v with
  | VStr s => Returned s
  | _ => Raised TypeError
  end.

Definition section (title : str) (headers : list str) (rows : list (list str)) : str :=
  title ++ [nl] ++ generate_markdown_table headers rows ++ [nl; nl].

(** [len(compose_data)]: the mapping has the keys ["services"] and
    ["file"], whatever the services are. *)
Definition compose_len (services : list service_info) : nat := 2.

Definition count (n : nat) (what : string) : str :=
  lit (pretty n) ++ lit " " ++ lit what.

(** Lines 404-473: [md_content] from the data of the extractors *)
Definition md_content (unified : bool)
    (compose_data : list service_info) (tasks_data : list task_info)
    (launch_data : list launch_info) (devcontainer_data : list dev_info)
    (dockerfile_data : list (str * dockerfile_info)) : outcome str :=
  compose ←!
    (if bool_decide (compose_len compose_data ≠ 0) then
       rows ←! traverse (λ svc, traverse cell
                  [VStr (svc_service svc); svc_image svc; VStr (svc_ports svc);
                   VStr (svc_volumes svc); VStr (svc_environment svc)]) compose_data;
       Returned (section (lit "## Docker Compose Configurations")
                   [lit "Service"; lit "Image"; lit "Ports"; lit "Volumes";
                    lit "Injected ENV variables"] rows)
     else Returned []);
  tasks ←!
    (match tasks_data with
     | [] => Returned []
     | _ =>
       rows ←! traverse (λ task, traverse cell
                  [task_label task; task_detail task; task_command task;
                   VStr (task_inputs task)]) tasks_data;
       Returned (section (lit "## VS Code Tasks")
                   [lit "Name"; lit "Description"; lit "Command"; lit "Inputs"] rows)
     end);
  launch ←!
    (match launch_data with
     | [] => Returned []
     | _ =>
       rows ←! traverse (λ config, traverse cell
                  [launch_name config; launch_type config;
                   VStr (launch_inputs config)]) launch_data;
       Returned (section (lit "## VS Code Launch Configurations")
                   [lit "Name"; lit "Type"; lit "Inputs"] rows)
     end);
  let devcontainers :=
    match devcontainer_data with
    | [] => []
    | _ => section (lit "## Devcontainer Configurations") [lit "Extensions"]
             ((λ dev, [dev_extensions dev]) <$> devcontainer_data)
    end in
  let dockerfiles :=
    match dockerfile_data with
    | [] => []
    | _ => section (lit "## Dockerfiles")
             [lit "File"; lit "Base Image"; lit "Exposed Ports"]
             ((λ df, [df.1; base_image df.2; exposed_ports df.2]) <$> dockerfile_data)
    end in
  let summary :=
    if unified then
      section (lit "## Unified Configuration Summary") [lit "Config Type"; lit "Details"]
        [[lit "VS Code Tasks"; count (length tasks_data) "tasks found"];
         [lit "VS Code Launch"; count (length launch_data) "launch configurations found"];
         [lit "Devcontainer"; count (length devcontainer_data) "devcontainer configs found"];
         [lit "Dockerfiles"; count (length dockerfile_data) "Dockerfiles found"];
         [lit "Docker Compose"; count (compose_len compose_data) "docker-compose files found"]]
    else [] in
  Returned (compose ++ tasks ++ launch ++ devcontainers ++ dockerfiles ++ summary).

(** Lines 363-402 of [main]: what the extractors deliver *)
Record extracted := {
  x_compose : list service_info;
  x_tasks : list task_info;
  x_launch : list launch_info;
  x_devcontainers : list dev_info;
  x_dockerfiles : list (str * dockerfile_info);
}.

Definition extract (R : Runtime) (D : Disk) (args : Args) : run extracted :=
  let base_dir := abspath R (arg_base_dir args) in
  global_spec ←: quiet (load_global_gitignore R D base_dir);
  compose_data ←: parse_docker_compose R D comp_file;
  data ←: (let '(ev, data) := parse_yaml_file R D comp_file in (ev, Returned data));
  additional_dockerfiles ←: quiet (additional_dockerfiles R data);
  found ←: (let '(ev, l) := find_files R D base_dir (lit "Dockerfile") global_spec in
            (ev, Returned l));
  let dockerfiles := elements (list_to_set found ∪ additional_dockerfiles : gset str) in
  tasks_files ←: (let '(ev, l) := find_files R D base_dir (lit "tasks\.json") global_spec in
                  (ev, Returned l));
  launch_files ←: (let '(ev, l) := find_files R D base_dir (lit "launch\.json") global_spec in
                   (ev, Returned l));
  devcontainer_files ←:
    (let '(ev, l) := find_files R D base_dir (lit "devcontainer\.json") global_spec in
     (ev, Returned l));
  tasks_data ←: extend_all (parse_vscode_tasks R D) tasks_files;
  launch_data ←: extend_all (parse_vscode_launch R D) launch_files;
  devcontainer_data ←:
    extend_all (λ file, dev ←: parse_devcontainer R D file;
                        quiet (Returned (option_list dev))) devcontainer_files;
  dockerfile_data ←:
    extend_all (λ file, let '(ev, df) := parse_dockerfile D file in
                        (ev, Returned [(relpath R file base_dir, df)])) dockerfiles;
  quiet (Returned {| x_compose := compose_data; x_tasks := tasks_data;
                     x_launch := launch_data; x_devcontainers := devcontainer_data;
                     x_dockerfiles := dockerfile_data |}).

(** [md_content] as [main] hands it to the patcher *)
Definition generated (R : Runtime) (D : Disk) (args : Args) : run str :=
  x ←: extract R D args;
  quiet (md_content (arg_unified args) (x_compose x) (x_tasks x) (x_launch x)
           (x_devcontainers x) (x_dockerfiles x)).

(** [main] *)
Definition main (R : Runtime) (D : Disk) (args : Args) : run Disk :=
  md_content ←: generated R D args;
  update_readme_table D md_content readme_path.

(** ** Notions the statements below use *)




(** The lines of a build file that the parser reads as a base image and
    as exposed ports *)
Definition is_from (line : str) : bool :=
  Text.startswith (lit "FROM") (Text.upper (Text.strip line)).

Definition is_expose (line : str) : bool :=
  negb (is_from line) && Text.startswith (lit "EXPOSE") (Text.upper (Text.strip line)).

(** The second token of every [FROM] line that has one, in file order *)
Definition declared_images (lines : list str) : list str :=
  lines ≫= λ line,
    if is_from line then option_list (Text.split (Text.strip line) !! 1) else [].

(** The tokens behind [EXPOSE], over all [EXPOSE] lines, in file order *)
Definition declared_ports (lines : list str) : list str :=
  lines ≫= λ line,
    if is_expose line then drop 1 (Text.split (Text.strip line)) else [].

(** The build-file record as the specification words it: the first base
    image, the ports joined by a space. *)
Definition spec_dockerfile (lines : list str) : dockerfile_info :=
  {| base_image := default [] (head (declared_images lines));
     exposed_ports := Text.join (lit " ") (declared_ports lines) |}.

(** A column is blank when the cell of every row that reaches it is
    empty or white space. *)
Definition blank_column (rows : list (list str)) (i : nat) : bool :=
  forallb (λ row, match row !! i with
                  | Some cell => bool_decide (Text.strip cell = [])
                  | None => true
                  end) rows.

(** The columns a table keeps, in order *)
Definition kept_columns (headers : list str) (rows : list (list str)) : list nat :=
  List.filter (λ i, negb (blank_column rows i)) (seq 0 (length headers)).

(** The cells of a row at the given columns *)
Definition select {A} (cols : list nat) (row : list A) : list A :=
  omap (λ i, row !! i) cols.

(** The inline table over given headers and rows, nothing dropped *)
Definition html_table (headers : list str) (rows : list (list str)) : str :=
  lit "<table style='border-collapse: collapse;'>"
  ++ tr (th <$> headers)
  ++ concat ((λ row, tr (td <$> row)) <$> rows)
  ++ lit "</table>".

(** The top-level renderer as the specification words it: blank columns
    dropped, and nothing for an empty row set. *)
Definition spec_markdown_table (headers : list str) (rows : list (list str)) : str :=
  match rows with
  | [] => []
  | _ =>
      let cols := kept_columns headers rows in
      generate_markdown_table (select cols headers) (select cols <$> rows)
  end.


(** A file the tolerant JSON reader gets no data from: it cannot be
    read, or neither its text nor its cleaned text parses. *)
Definition json_unusable (R : Runtime) (D : Disk) (file_path : str) : bool :=
  match read_file D file_path with
  | Fails _ => true
  | Text t =>
      match json_loads R t with
      | Loaded _ => false
      | OtherError => true
      | DecodeError =>
          match json_loads R (remove_trailing_commas (remove_json_comments t)) with
          | Loaded _ => false
          | _ => true
          end
      end
  end.

(** A file the YAML reader gets no data from *)
Definition yaml_unusable (R : Runtime) (D : Disk) (file_path : str) : bool :=
  match read_file D file_path with
  | Fails _ => true
  | Text t => match yaml_safe_load R t with Some _ => false | None => true end
  end.

(** The directories the walk yields, with the files it yields for each:
    the root, and every directory below a yielded one whose name the
    local ignore file of its parent does not match and whose path below
    the root the root-level ignore file does not match. *)
Inductive yields (R : Runtime) (D : Disk) (global_spec : option (spec R))
  : str → list str → tree → str → list str → Prop :=
  | yields_here root rel dirs files :
      match rel with [] => false | _ => spec_matches R global_spec (rel_root rel) end = false →
      yields R D global_spec root rel (Dir dirs files) root
        (List.filter (λ name, negb (spec_matches R (local_spec R D root).2 name)) files)
  | yields_below root rel dirs files d sub dir fs :
      match rel with [] => false | _ => spec_matches R global_spec (rel_root rel) end = false →
      (d, sub) ∈ dirs →
      spec_matches R (local_spec R D root).2 d = false →
      yields R D global_spec (Path.join root d) (rel ++ [d]) sub dir fs →
      yields R D global_spec root rel (Dir dirs files) dir fs.

(** The root-level ignore file matches the path [rel] below the root. *)
Definition pruned (R : Runtime) (global_spec : option (spec R)) (rel : list str) : bool :=
  match rel with [] => false | _ => spec_matches R global_spec (rel_root rel) end.

(** What the walk prints and yields below the directory [root], for the
    sub-directories whose name is [kept] *)
Definition below (R : Runtime) (D : Disk) (global_spec : option (spec R))
    (root : str) (rel : list str) (kept : str → bool) (dirs : list (str * tree))
  : list event * list (str * list str * list str) :=
  foldr (λ entry acc,
           if kept entry.1 then
             ((walk_with_gitignore R D global_spec
                 (Path.join root entry.1) (rel ++ [entry.1]) entry.2).1 ++ acc.1,
              (walk_with_gitignore R D global_spec
                 (Path.join root entry.1) (rel ++ [entry.1]) entry.2).2 ++ acc.2)
           else acc) ([], []) dirs.


(** [v] occurs in [obj]: it is [obj], an item of a list in [obj] or the
    value of a field of a mapping in [obj], at any depth. *)
Inductive inside (v : value) : value → Prop :=
  | inside_here : inside v v
  | inside_item item l : item ∈ l → inside v item → inside v (VList l)
  | inside_field k u d : (k, u) ∈ d → inside v u → inside v (VDict d).

(** [inp] is a mapping whose [id] is the string [id]. *)
Definition defines (id : str) (inp : value) : bool :=
  match inp with
  | VDict d =>
      match dict_get (lit "id") d with
      | Some (VStr k) => bool_decide (k = id)
      | _ => false
      end
  | _ => false
  end.

(** [inp] is a mapping that has no [id] or a string as [id]. *)
Definition plain_input (inp : value) : Prop :=
  ∃ d, inp = VDict d
       ∧ (dict_get (lit "id") d = None ∨ ∃ k, dict_get (lit "id") d = Some (VStr k)).

(** ** An environment for the examples *)
Module Example.

Definition quoted (s : string) : str := [dquote] ++ lit s ++ [dquote].

(** Ignore files that hold plain names: gitwildmatch matches such a
    name against every component of a path. *)
Definition plain_match (patterns : list str) (path : str) : bool :=
  existsb (λ name, bool_decide (name ∈ patterns)) (Text.split_on Path.sep [] path).

(** The documents of the examples and what a JSON reader makes of them *)
Definition devcontainer_text : str :=
  lit "{" ++ quoted "name" ++ lit ": " ++ quoted "dev" ++ lit "}".
Definition devcontainer_data : value :=
  VDict [(lit "name", VStr (lit "dev"))].

Definition task_text : str :=
  lit "{" ++ quoted "label" ++ lit ": " ++ quoted "not // a comment" ++ lit "}".
Definition task_data : value :=
  VDict [(lit "label", VStr (lit "not // a comment"))].


Definition json_reader (t : str) : load_result :=
  let t := Text.strip t in
  if bool_decide (t = devcontainer_text) then Loaded devcontainer_data
  else if bool_decide (t = task_text) then Loaded task_data
  else DecodeError.

Definition runtime : Runtime :=
  {| json_loads := json_reader;
     yaml_safe_load := λ _, None;
     py_str := λ _, lit "?";
     spec := list str;
     from_lines := id;
     spec_truthy := λ patterns, match patterns with [] => false | _ => true end;
     match_file := plain_match;
     re_fullmatch := λ _ _, false;
     relpath := λ p start,
       if Text.startswith (start ++ [Path.sep]) p then drop (S (length start)) p else p;
     abspath := λ p, if Text.startswith [Path.sep] p then p else Path.join (lit "/work") p |}.

(** A project root with nothing in it, and no document yet *)
Definition empty_disk : Disk :=
  {| exists_ := λ _, false;
     read_file := λ _, Fails [];
     listing := λ _, Some (Dir [] []);
     getcwd := lit "/work" |}.

(** A root whose ignore file names [tasks.json], with such a file one
    directory down *)
Definition ignoring_disk : Disk :=
  {| exists_ := λ p, bool_decide (p = lit "/work/.gitignore");
     read_file := λ p, if bool_decide (p = lit "/work/.gitignore")
                       then Text (lit "tasks.json") else Fails [];
     listing := λ _, Some (Dir [(lit "sub", Dir [] [lit "tasks.json"])] [lit ".gitignore"]);
     getcwd := lit "/work" |}.

(** A directory [a] whose ignore file names [tasks.json], with such a
    file in its sub-directory [b] *)
Definition nested_disk : Disk :=
  {| exists_ := λ p, bool_decide (p = lit "/work/a/.gitignore");
     read_file := λ p, if bool_decide (p = lit "/work/a/.gitignore")
                       then Text (lit "tasks.json") else Fails [];
     listing := λ _, Some (Dir [(lit "a", Dir [(lit "b", Dir [] [lit "tasks.json"])]
                                          [lit ".gitignore"])] []);
     getcwd := lit "/work" |}.

(** A root with a build file that cannot be read *)
Definition unreadable_disk : Disk :=
  {| exists_ := λ _, false;
     read_file := λ _, Fails [];
     listing := λ _, Some (Dir [] [lit "Dockerfile"]);
     getcwd := lit "/work" |}.

(** A root with one file, of the given name and text *)
Definition one_file_disk (name : string) (text : str) : Disk :=
  {| exists_ := λ p, bool_decide (p = lit "/work/" ++ lit name);
     read_file := λ p, if bool_decide (p = lit "/work/" ++ lit name)
                       then Text text else Fails [];
     listing := λ _, Some (Dir [] [lit name]);
     getcwd := lit "/work" |}.

(** A task file with two tasks, and a runtime whose JSON reader knows it *)
Definition tasks_text : str :=
  lit "{" ++ quoted "tasks" ++ lit ": [{" ++ quoted "label" ++ lit ": " ++ quoted "build"
  ++ lit "}, {" ++ quoted "label" ++ lit ": " ++ quoted "test" ++ lit ", "
  ++ quoted "detail" ++ lit ": " ++ quoted "run ${input:suite}" ++ lit "}]}".

Definition tasks_data : value :=
  VDict [(lit "tasks",
          VList [VDict [(lit "label", VStr (lit "build"))];
                 VDict [(lit "label", VStr (lit "test"));
                        (lit "detail", VStr (lit "run ${input:suite}"))]])].

Definition tasks_runtime : Runtime :=
  {| json_loads := λ t, if bool_decide (Text.strip t = tasks_text)
                        then Loaded tasks_data else DecodeError;
     yaml_safe_load := yaml_safe_load runtime;
     py_str := py_str runtime;
     spec := spec runtime;
     from_lines := from_lines runtime;
     spec_truthy := spec_truthy runtime;
     match_file := match_file runtime;
     re_fullmatch := re_fullmatch runtime;
     relpath := relpath runtime;
     abspath := abspath runtime |}.

(** A compose file with one service that publishes a numeric port, and
    a runtime whose YAML reader knows it *)
Definition compose_text : str :=
  lit "services:" ++ [nl] ++ lit "  web:" ++ [nl] ++ lit "    ports:" ++ [nl]
  ++ lit "      - 8080" ++ [nl].

Definition compose_data : value :=
  VDict [(lit "services",
          VDict [(lit "web", VDict [(lit "ports", VList [VNum 8080])])])].

Definition compose_runtime : Runtime :=
  {| json_loads := json_loads runtime;
     yaml_safe_load := λ t, if bool_decide (t = compose_text)
                            then Some compose_data else None;
     py_str := py_str runtime;
     spec := spec runtime;
     from_lines := from_lines runtime;
     spec_truthy := spec_truthy runtime;
     match_file := match_file runtime;
     re_fullmatch := re_fullmatch runtime;
     relpath := relpath runtime;
     abspath := abspath runtime |}.

Definition args : Args := {| arg_base_dir := lit "/work"; arg_unified := false |}.

End Example.

(** * Properties *)

(** ** Text: prefixes and first occurrences *)
Section text_facts.
Implicit Types p s t a b x u : list N.

Lemma startswith_app p t : Text.startswith p (p ++ t) = true.
Proof. induction p as [|c p IH]; simpl; [done|]. by rewrite N.eqb_refl. Qed.

Lemma startswith_inv p s : Text.startswith p s = true → ∃ t, s = p ++ t.
Proof.
  revert s. induction p as [|c p IH]; intros s H; [by exists s|].
  destruct s as [|d s]; [done|]. simpl in H.
  apply andb_true_iff in H as [Hc Hp]. apply N.eqb_eq in Hc as ->.
  destruct (IH _ Hp) as [t ->]. by exists t.
Qed.



Lemma cut_nil_r p : Text.cut p [] = match p with [] => Some ([], []) | _ => None end.
Proof. by destruct p. Qed.

Lemma cut_Some p s a b : Text.cut p s = Some (a, b) → s = a ++ p ++ b.
Proof.
  revert a. induction s as [|c s IH]; intros a H.
  - rewrite cut_nil_r in H. destruct p; by simplify_eq.
  - simpl in H. destruct (Text.startswith p (c :: s)) eqn:Hsw.
    + simplify_eq. apply startswith_inv in Hsw as [t Ht]. rewrite Ht.
      by rewrite drop_app_length.
    + destruct (Text.cut p s) as [[a' b']|] eqn:Hc; simplify_eq/=.
      by rewrite (IH a' eq_refl).
Qed.

Lemma cut_here p t : Text.cut p (p ++ t) = Some ([], t).
Proof.
  destruct (p ++ t) as [|c s] eqn:E.
  - apply app_eq_nil in E as [-> ->]. done.
  - simpl. rewrite <-E, startswith_app. by rewrite drop_app_length.
Qed.


Lemma contains_cons_false p c s :
  Text.contains p (c :: s) = false →
  Text.startswith p (c :: s) = false ∧ Text.contains p s = false.
Proof.
  unfold Text.contains. simpl.
  destruct (Text.startswith p (c :: s)); [done|].
  by destruct (Text.cut p s).
Qed.



Lemma cut_length p s a b :
  Text.cut p s = Some (a, b) → length s = length a + length p + length b.
Proof. intros ->%cut_Some. rewrite !length_app. lia. Qed.

End text_facts.

(** ** The document patcher *)
Section patcher_facts.
Implicit Types s t pre post old : list N.

Lemma has_char_app c s t :
  Text.has_char c (s ++ t) = Text.has_char c s || Text.has_char c t.
Proof. apply existsb_app. Qed.












End patcher_facts.

Section patcher_runs.
Implicit Types s t pre post old : list N.











End patcher_runs.

(** ** Runs of the orchestrator *)
Section orchestrator_facts.





End orchestrator_facts.




(** C5 at a section text with a backslash pair, as a task label with two
    backslashes generates it: the region is not replaced by the wrapped
    section (one backslash is written), and at a backslash before a
    letter that is no escape, nothing is written at all; the two other
    branches write the wrapped section as it is. *)
Theorem patch_rewrites_backslashes :
  let readme := Some (start_marker ++ lit "old" ++ end_marker) in
  new_content (lit "a\\b") readme = Returned (wrapped_section (lit "a\b"))
  ∧ new_content (lit "a\\b") readme ≠ Returned (wrapped_section (lit "a\\b"))
  ∧ new_content (lit "C:\dev") readme = Raised ReError
  ∧ new_content (lit "a\\b") None = Returned (wrapped_section (lit "a\\b"))
  ∧ new_content (lit "a\\b") (Some (lit "text"))
    = Returned (lit "text" ++ [nl; nl] ++ wrapped_section (lit "a\\b")).
Proof.
  cbv zeta. split; [|split; [|split; [|split]]]; vm_compute;
    first [reflexivity | intros H; discriminate H].
Qed.

(** C2 at a root without any configuration file, no compose file and no
    document: the generated markdown is the heading and the empty table
    of the compose section, not the empty text, and the document
    written wraps that text. *)
Theorem empty_root_has_compose_section :
  let heading :=
    lit "## Docker Compose Configurations" ++ [nl]
    ++ lit "| Service | Image | Ports | Volumes | Injected ENV variables |" ++ [nl]
    ++ lit "| --- | --- | --- | --- | --- |" ++ [nl; nl; nl] in
  (generated Example.runtime Example.empty_disk Example.args).2 = Returned heading
  ∧ (generated Example.runtime Example.empty_disk Example.args).2 ≠ Returned []
  ∧ (D ←! (main Example.runtime Example.empty_disk Example.args).2;
     read_document D readme_path) = Returned (Some (wrapped_section heading)).
Proof.
  cbv zeta. split; [|split]; vm_compute;
    first [reflexivity | intros H; discriminate H].
Qed.

(** ** The build-file parser *)
Section dockerfile_facts.

Lemma declared_images_cons line lines :
  declared_images (line :: lines)
  = (if is_from line then option_list (Text.split (Text.strip line) !! 1) else [])
    ++ declared_images lines.
Proof. reflexivity. Qed.

Lemma declared_ports_cons line lines :
  declared_ports (line :: lines)
  = (if is_expose line then drop 1 (Text.split (Text.strip line)) else [])
    ++ declared_ports lines.
Proof. reflexivity. Qed.

(** The loop keeps the image of the last [FROM] line that names one and
    appends the ports of every [EXPOSE] line. *)
Lemma dockerfile_fold lines b ps :
  foldl dockerfile_line (b, ps) lines
  = (default b (last (declared_images lines)), ps ++ declared_ports lines).
Proof.
  revert b ps. induction lines as [|line lines IH]; intros b ps.
  { cbn. by rewrite app_nil_r. }
  cbn [foldl]. rewrite declared_images_cons, declared_ports_cons.
  unfold dockerfile_line, is_expose, is_from. cbn [fst snd].
  destruct (Text.startswith (lit "FROM") (Text.upper (Text.strip line))).
  - cbn [negb andb app].
    destruct (Text.split (Text.strip line) !! 1) as [image|]; rewrite IH.
    + cbn [option_list option_rect]. rewrite last_app.
      cbn [last]. by destruct (last (declared_images lines)).
    + reflexivity.
  - cbn [negb andb app].
    destruct (Text.startswith (lit "EXPOSE") (Text.upper (Text.strip line)));
      rewrite IH; [by rewrite (assoc_L (++))|reflexivity].
Qed.

End dockerfile_facts.

(** C3 (as amended).  For every build file, the parser takes as base
    image the second token of the last line that starts, in any case,
    with FROM and has a second token (a later FROM line overwrites an
    earlier one), and accumulates the tokens behind EXPOSE over every
    EXPOSE line; the record holds these ports joined by a comma and a
    space. *)
Theorem dockerfile_last_from_wins (D : Disk) (file_path t : list N) :
  read_file D file_path = Text t →
  parse_dockerfile D file_path =
    ([], {| base_image := default [] (last (declared_images (Text.file_lines [] t)));
            exposed_ports :=
              Text.join (lit ", ") (declared_ports (Text.file_lines [] t)) |}).
Proof.
  intros Hread. unfold parse_dockerfile, dockerfile_of_lines.
  rewrite Hread, dockerfile_fold. reflexivity.
Qed.

Lemma dockerfile_last_from_wins_witness :
  let t := lit "FROM node:20 AS build" ++ [nl] ++ lit "expose 80 443" ++ [nl]
           ++ lit "from nginx" ++ [nl] ++ lit "EXPOSE 8080" in
  let D := Example.one_file_disk "Dockerfile" t in
  read_file D (lit "/work/Dockerfile") = Text t
  ∧ parse_dockerfile D (lit "/work/Dockerfile")
    = ([], {| base_image := lit "nginx"; exposed_ports := lit "80, 443, 8080" |}).
Proof.
  cbv zeta.
  set (t := lit "FROM node:20 AS build" ++ [nl] ++ lit "expose 80 443" ++ [nl]
            ++ lit "from nginx" ++ [nl] ++ lit "EXPOSE 8080").
  assert (read_file (Example.one_file_disk "Dockerfile" t) (lit "/work/Dockerfile")
          = Text t) as Hread by (vm_compute; reflexivity).
  split; [exact Hread|].
  rewrite (dockerfile_last_from_wins _ _ _ Hread). vm_compute. reflexivity.
Defined.

(** C3 (as stated) fails on a two-stage build file: the record holds
    the image of the second FROM line, and the ports are not joined by
    a space. *)
Lemma dockerfile_not_first_from :
  let lines := Text.file_lines []
                 (lit "FROM a" ++ [nl] ++ lit "FROM b" ++ [nl] ++ lit "EXPOSE 1 2") in
  base_image (dockerfile_of_lines lines) = lit "b"
  ∧ base_image (spec_dockerfile lines) = lit "a"
  ∧ exposed_ports (dockerfile_of_lines lines) = lit "1, 2"
  ∧ exposed_ports (spec_dockerfile lines) = lit "1 2"
  ∧ dockerfile_of_lines lines ≠ spec_dockerfile lines.
Proof.
  cbv zeta. repeat split; try (vm_compute; reflexivity).
  vm_compute. intros H. discriminate H.
Qed.

(** ** The table renderers *)
Section renderer_facts.
Implicit Types (rows : list (list (list N))) (cols : list nat).

Lemma index_lookup {A} (l : list A) i x : l !! i = Some x → index l i = Returned x.
Proof. unfold index. by intros ->. Qed.

Lemma any_cell_blank i rows :
  Forall (λ row, i < length row) rows →
  any_cell i rows = Returned (negb (blank_column rows i)).
Proof.
  induction 1 as [|row rows Hrow _ IH]; [reflexivity|].
  destruct (lookup_lt_is_Some_2 row i Hrow) as [cell Hcell].
  cbn [any_cell blank_column forallb]. rewrite (index_lookup _ _ _ Hcell), Hcell.
  cbn [obind]. destruct (Text.strip cell) as [|c s] eqn:Hs.
  - rewrite bool_decide_eq_true_2 by reflexivity. cbn [andb]. exact IH.
  - rewrite bool_decide_eq_false_2 by discriminate. reflexivity.
Qed.

Lemma non_empty_cols_filter rows cols :
  Forall (λ i, Forall (λ row, i < length row) rows) cols →
  non_empty_cols rows cols
  = Returned (List.filter (λ i, negb (blank_column rows i)) cols).
Proof.
  induction 1 as [|i cols Hi _ IH]; [reflexivity|].
  cbn [non_empty_cols List.filter]. rewrite (any_cell_blank _ _ Hi), IH.
  cbn [obind]. by destruct (negb (blank_column rows i)).
Qed.

Lemma traverse_index {A} (l : list A) cols :
  Forall (λ i, i < length l) cols →
  traverse (index l) cols = Returned (select cols l).
Proof.
  induction 1 as [|i cols Hi _ IH]; [reflexivity|].
  destruct (lookup_lt_is_Some_2 l i Hi) as [x Hx].
  cbn [traverse]. rewrite (index_lookup _ _ _ Hx), IH. cbn [obind].
  unfold select. simpl. by rewrite Hx.
Qed.

Lemma traverse_rows rows cols :
  Forall (λ row, Forall (λ i, i < length row) cols) rows →
  traverse (λ row, traverse (index row) cols) rows = Returned (select cols <$> rows).
Proof.
  induction 1 as [|row rows Hrow _ IH]; [reflexivity|].
  cbn [traverse]. rewrite (traverse_index _ _ Hrow), IH. reflexivity.
Qed.

Lemma kept_columns_lt headers rows i :
  i ∈ kept_columns headers rows → i < length headers.
Proof.
  unfold kept_columns. rewrite list_elem_of_In, filter_In, in_seq. lia.
Qed.

Lemma blank_column_false rows i :
  blank_column rows i = false ↔
  ∃ row cell, row ∈ rows ∧ row !! i = Some cell ∧ Text.strip cell ≠ [].
Proof.
  induction rows as [|row rows IH].
  { split; [discriminate|]. intros (row & cell & Hin & _). by apply elem_of_nil in Hin. }
  cbn [blank_column forallb]. rewrite andb_false_iff. fold (blank_column rows i).
  rewrite IH. split.
  - intros [Hrow|(row' & cell & Hin & Hc)].
    + destruct (row !! i) as [cell|] eqn:Hc; [|discriminate].
      exists row, cell. split; [apply elem_of_cons; by left|]. split; [done|].
      by apply bool_decide_eq_false in Hrow.
    + exists row', cell. split; [apply elem_of_cons; by right|done].
  - intros (row' & cell & Hin & Hc & Hs).
    apply elem_of_cons in Hin as [->|Hin].
    + left. rewrite Hc. by apply bool_decide_eq_false.
    + right. by exists row', cell.
Qed.

Lemma kept_columns_spec headers rows i :
  i ∈ kept_columns headers rows ↔
  i < length headers
  ∧ ∃ row cell, row ∈ rows ∧ row !! i = Some cell ∧ Text.strip cell ≠ [].
Proof.
  unfold kept_columns. rewrite list_elem_of_In, filter_In, in_seq.
  rewrite negb_true_iff, blank_column_false. intuition lia.
Qed.

Lemma generate_html_table_kept headers rows :
  rows ≠ [] →
  Forall (λ row, length headers ≤ length row) rows →
  generate_html_table headers rows
  = Returned (html_table (select (kept_columns headers rows) headers)
                (select (kept_columns headers rows) <$> rows)).
Proof.
  intros Hne Hrect. unfold generate_html_table.
  destruct rows as [|row0 rows0]; [done|]. set (rows := row0 :: rows0) in *.
  rewrite non_empty_cols_filter.
  2:{ apply Forall_forall. intros i Hi%list_elem_of_In%in_seq.
      eapply Forall_impl; [exact Hrect|]. simpl. intros. lia. }
  cbn [obind]. fold (kept_columns headers rows).
  rewrite traverse_index.
  2:{ apply Forall_forall. intros i Hi. by eapply kept_columns_lt. }
  cbn [obind]. rewrite traverse_rows.
  2:{ eapply Forall_impl; [exact Hrect|]. simpl. intros row Hrow.
      apply Forall_forall. intros i Hi%kept_columns_lt. lia. }
  reflexivity.
Qed.

End renderer_facts.

(** C4 (as amended).  The inline HTML renderer drops every column whose
    cell is empty or white space in every row, headers and cells in
    lockstep, and returns the empty text for an empty row list; for the
    headers X, Y and the rows ["", "1"], ["", "2"] its table has the
    column Y only.  The top-level markdown renderer drops nothing: it
    emits every header, a dash cell for each, and every cell of every
    row, also for an empty row list. *)
Theorem html_renderer_drops_blank_columns (headers : list (list N))
    (rows : list (list (list N))) :
  rows ≠ [] →
  Forall (λ row, length headers ≤ length row) rows →
  generate_html_table headers rows
  = Returned (html_table (select (kept_columns headers rows) headers)
                (select (kept_columns headers rows) <$> rows))
  ∧ (∀ i, i ∈ kept_columns headers rows ↔
          i < length headers
          ∧ ∃ row cell, row ∈ rows ∧ row !! i = Some cell ∧ Text.strip cell ≠ [])
  ∧ generate_html_table headers [] = Returned []
  ∧ generate_html_table [lit "X"; lit "Y"] [[lit ""; lit "1"]; [lit ""; lit "2"]]
    = Returned (html_table [lit "Y"] [[lit "1"]; [lit "2"]])
  ∧ generate_markdown_table headers rows
    = md_line headers ++ md_line (replicate (length headers) (lit "---"))
      ++ concat (md_line <$> rows)
  ∧ generate_markdown_table headers []
    = md_line headers ++ md_line (replicate (length headers) (lit "---")).
Proof.
  intros Hne Hrect. split; [by apply generate_html_table_kept|].
  split; [apply kept_columns_spec|]. split; [reflexivity|].
  split; [vm_compute; reflexivity|]. split; [reflexivity|].
  unfold generate_markdown_table. cbn [fmap list_fmap concat]. by rewrite app_nil_r.
Qed.

Lemma html_renderer_drops_blank_columns_witness :
  let headers := [lit "X"; lit "Y"] in
  let rows := [[lit ""; lit "1"]; [lit ""; lit "2"]] in
  rows ≠ []
  ∧ Forall (λ row, length headers ≤ length row) rows
  ∧ kept_columns headers rows = [1]
  ∧ generate_html_table headers rows
    = Returned (html_table (select (kept_columns headers rows) headers)
                  (select (kept_columns headers rows) <$> rows)).
Proof.
  cbv zeta.
  assert ([[lit ""; lit "1"]; [lit ""; lit "2"]] ≠ ([] : list (list (list N)))) as Hne
    by discriminate.
  assert (Forall (λ row : list (list N), length [lit "X"; lit "Y"] ≤ length row)
            [[lit ""; lit "1"]; [lit ""; lit "2"]]) as Hrect
    by (repeat constructor).
  split; [exact Hne|]. split; [exact Hrect|]. split; [vm_compute; reflexivity|].
  exact (proj1 (html_renderer_drops_blank_columns _ _ Hne Hrect)).
Defined.

(** C4 (as stated) fails for the top-level markdown renderer: on the
    headers X, Y and the rows ["", "1"], ["", "2"] it emits the blank
    column X too, and on an empty row list it emits a table. *)
Lemma markdown_renderer_keeps_blank_columns :
  let headers := [lit "X"; lit "Y"] in
  let rows := [[lit ""; lit "1"]; [lit ""; lit "2"]] in
  generate_markdown_table headers rows
  = lit "| X | Y |" ++ [nl] ++ lit "| --- | --- |" ++ [nl]
    ++ lit "|  | 1 |" ++ [nl] ++ lit "|  | 2 |" ++ [nl]
  ∧ spec_markdown_table headers rows
    = lit "| Y |" ++ [nl] ++ lit "| --- |" ++ [nl]
      ++ lit "| 1 |" ++ [nl] ++ lit "| 2 |" ++ [nl]
  ∧ generate_markdown_table headers rows ≠ spec_markdown_table headers rows
  ∧ generate_markdown_table headers [] ≠ [].
Proof.
  cbv zeta. repeat split; try (vm_compute; reflexivity);
    vm_compute; intros H; discriminate H.
Qed.

(** ** The tolerant JSON reader *)
Section json_facts.
Implicit Types s pre body post : list N.

Lemma string_tail_length s b r :
  string_tail s = Some (b, r) → length s = length b + length r.
Proof.
  revert b. induction s as [s IH] using (induction_ltof1 _ (@length N)).
  unfold ltof in IH. intros b H. destruct s as [|c s]; [done|].
  cbn [string_tail] in H. destruct (c =? dquote)%N.
  { injection H as <- <-. reflexivity. }
  destruct (c =? backslash)%N.
  - destruct s as [|e s]; [done|].
    destruct (string_tail s) as [[b' r']|] eqn:Ht; [|done].
    injection H as <- <-. apply IH in Ht; [|simpl; lia]. simpl. lia.
  - destruct (string_tail s) as [[b' r']|] eqn:Ht; [|done].
    injection H as <- <-. apply IH in Ht; [|simpl; lia]. simpl. lia.
Qed.

Lemma line_rest_length s : length (line_rest s) ≤ length s.
Proof.
  induction s as [|c s IH]; [done|]. cbn [line_rest].
  destruct (c =? nl)%N; simpl; lia.
Qed.

Lemma strip_comments_fuel f f' s :
  length s ≤ f → length s ≤ f' → strip_comments f s = strip_comments f' s.
Proof.
  revert f' s. induction f as [|f IH]; intros f' s Hf Hf'.
  { destruct s; [|simpl in Hf; lia]. by destruct f'. }
  destruct f' as [|f']; [destruct s; [done|simpl in Hf'; lia]|].
  destruct s as [|c s]; [done|]. cbn [strip_comments]. cbn [length] in Hf, Hf'.
  destruct (c =? dquote)%N.
  { destruct (string_tail s) as [[b r]|] eqn:Ht.
    - apply string_tail_length in Ht. rewrite (IH f' r) by lia. done.
    - rewrite (IH f' s) by lia. done. }
  destruct (c =? 47)%N; [|rewrite (IH f' s) by lia; done].
  destruct s as [|d s]; [done|]. cbn [length] in Hf, Hf'.
  destruct (d =? 42)%N.
  { destruct (Text.cut (lit "*/") s) as [[a r]|] eqn:Hc.
    - apply cut_length in Hc. rewrite (IH f' r) by lia. done.
    - rewrite (IH f' (d :: s)) by (simpl; lia). done. }
  destruct (d =? 47)%N.
  - pose proof (line_rest_length s). rewrite (IH f' (line_rest s)) by lia. done.
  - rewrite (IH f' (d :: s)) by (simpl; lia). done.
Qed.

(** The scanner, one step at a time *)
Lemma remove_json_comments_cons c s :
  remove_json_comments (c :: s) =
    if (c =? dquote)%N then
      match string_tail s with
      | Some (b, r) => c :: b ++ remove_json_comments r
      | None => c :: remove_json_comments s
      end
    else if (c =? 47)%N then
      match s with
      | d :: s' =>
          if (d =? 42)%N then
            match Text.cut (lit "*/") s' with
            | Some (_, r) => remove_json_comments r
            | None => c :: remove_json_comments s
            end
          else if (d =? 47)%N then remove_json_comments (line_rest s')
          else c :: remove_json_comments s
      | [] => [c]
      end
    else c :: remove_json_comments s.
Proof.
  unfold remove_json_comments. cbn [length strip_comments].
  destruct (c =? dquote)%N.
  { destruct (string_tail s) as [[b r]|] eqn:Ht; [|done].
    apply string_tail_length in Ht.
    rewrite (strip_comments_fuel (length s) (length r)) by lia. done. }
  destruct (c =? 47)%N; [|done].
  destruct s as [|d s]; [done|]. cbn [length].
  destruct (d =? 42)%N.
  { destruct (Text.cut (lit "*/") s) as [[a r]|] eqn:Hc; [|done].
    apply cut_length in Hc. apply strip_comments_fuel; simpl; lia. }
  destruct (d =? 47)%N; [|done].
  pose proof (line_rest_length s). apply strip_comments_fuel; simpl; lia.
Qed.

(** Text without a quote or a slash is copied. *)
Lemma remove_json_comments_plain pre s :
  Text.has_char dquote pre = false → Text.has_char 47%N pre = false →
  remove_json_comments (pre ++ s) = pre ++ remove_json_comments s.
Proof.
  induction pre as [|c pre IH]; intros Hq Hs; [done|].
  cbn [Text.has_char existsb] in Hq, Hs.
  apply orb_false_iff in Hq as [Hq1 Hq2]. apply orb_false_iff in Hs as [Hs1 Hs2].
  change ((c :: pre) ++ s) with (c :: (pre ++ s)).
  rewrite remove_json_comments_cons. rewrite (N.eqb_sym c dquote), Hq1.
  rewrite (N.eqb_sym c 47%N), Hs1. rewrite IH by done. done.
Qed.



End json_facts.



(** ** Files that cannot be used *)
Section unusable_facts.

Lemma parse_json_file_unusable R D file_path :
  json_unusable R D file_path = true →
  ∃ e, event_path e = file_path ∧ parse_json_file R D file_path = ([e], VNull).
Proof.
  unfold json_unusable, parse_json_file.
  destruct (read_file D file_path) as [t|seen].
  2:{ intros _. by exists (ErrorReading file_path). }
  destruct (json_loads R t) as [v| |]; [done| |].
  - destruct (json_loads R (remove_trailing_commas (remove_json_comments t)));
      [done|..]; intros _; by exists (ErrorAfterCleaning file_path).
  - intros _. by exists (ErrorReading file_path).
Qed.

Lemma parse_yaml_file_unusable R D file_path :
  yaml_unusable R D file_path = true →
  parse_yaml_file R D file_path = ([ErrorReading file_path], VNull).
Proof.
  unfold yaml_unusable, parse_yaml_file.
  destruct (read_file D file_path) as [t|seen]; [|done].
  by destruct (yaml_safe_load R t).
Qed.

(** A file that contributes nothing does not stop the loop over the
    files. *)
Lemma extend_all_skips {A} (parse : list N → run (list A)) file files e :
  parse file = ([e], Returned []) →
  extend_all parse (file :: files)
  = (e :: (extend_all parse files).1, (extend_all parse files).2).
Proof.
  intros Hp. cbn [extend_all]. rewrite Hp. unfold rbind at 1.
  destruct (extend_all parse files) as [ev [rest|x]]; simpl;
    rewrite ?app_nil_r; reflexivity.
Qed.

End unusable_facts.

(** C7 (as amended).  A file that cannot be read or parsed is logged
    with its path, and the extractor returns instead of raising: the
    task and launch extractors return the empty list, the devcontainer
    extractor the empty mapping, the compose extractor the empty service
    list, and the loop over the files goes on with the next file.  The
    build-file extractor returns the record of the lines read before
    the failure, with an empty base image and no ports when none was
    read. *)
Theorem unusable_files_are_logged (R : Runtime) (D : Disk) (file_path : list N) :
  (json_unusable R D file_path = true →
     ∃ e, event_path e = file_path
       ∧ parse_vscode_tasks R D file_path = ([e], Returned [])
       ∧ parse_vscode_launch R D file_path = ([e], Returned [])
       ∧ parse_devcontainer R D file_path = ([e], Returned None)
       ∧ ∀ files,
           extend_all (parse_vscode_tasks R D) (file_path :: files)
           = (e :: (extend_all (parse_vscode_tasks R D) files).1,
              (extend_all (parse_vscode_tasks R D) files).2))
  ∧ (yaml_unusable R D file_path = true →
       parse_docker_compose R D file_path = ([ErrorReading file_path], Returned []))
  ∧ (∀ seen, read_file D file_path = Fails seen →
       parse_dockerfile D file_path
       = ([ErrorReadingDockerfile file_path],
          dockerfile_of_lines (Text.file_lines [] seen)))
  ∧ (read_file D file_path = Fails [] →
       parse_dockerfile D file_path
       = ([ErrorReadingDockerfile file_path],
          {| base_image := []; exposed_ports := [] |})).
Proof.
  split; [|split; [|split]].
  - intros (e & He & Hp)%parse_json_file_unusable. exists e.
    assert (parse_vscode_tasks R D file_path = ([e], Returned [])) as Ht.
    { unfold parse_vscode_tasks. by rewrite Hp. }
    split; [exact He|]. split; [exact Ht|]. split; [|split].
    + unfold parse_vscode_launch. by rewrite Hp.
    + unfold parse_devcontainer. by rewrite Hp.
    + intros files. by apply extend_all_skips.
  - intros Hp%parse_yaml_file_unusable. unfold parse_docker_compose. by rewrite Hp.
  - intros seen Hread. unfold parse_dockerfile. by rewrite Hread.
  - intros Hread. unfold parse_dockerfile. by rewrite Hread.
Qed.

Lemma unusable_files_are_logged_witness :
  let D := Example.one_file_disk "tasks.json" (lit "{ not json") in
  json_unusable Example.runtime D (lit "/work/tasks.json") = true
  ∧ ∃ e, event_path e = lit "/work/tasks.json"
      ∧ parse_vscode_tasks Example.runtime D (lit "/work/tasks.json") = ([e], Returned []).
Proof.
  cbv zeta.
  assert (json_unusable Example.runtime
            (Example.one_file_disk "tasks.json" (lit "{ not json"))
            (lit "/work/tasks.json") = true) as Hbad by (vm_compute; reflexivity).
  split; [exact Hbad|].
  destruct (proj1 (unusable_files_are_logged Example.runtime _ _) Hbad)
    as (e & He & Ht & _).
  exists e. split; [exact He|exact Ht].
Defined.

(** C7 (as stated) fails for the build-file extractor: a build file
    that cannot be read yields a record, which the orchestrator lists
    as a row of the Dockerfiles table, and a file that fails after its
    first line yields the base image of that line. *)
Lemma unreadable_dockerfile_is_listed :
  (x ←! (extract Example.runtime Example.unreadable_disk Example.args).2;
   Returned (x_dockerfiles x))
  = Returned [(lit "Dockerfile", {| base_image := []; exposed_ports := [] |})]
  ∧ (x ←! (extract Example.runtime Example.unreadable_disk Example.args).2;
     Returned (x_dockerfiles x)) ≠ Returned []
  ∧ (extract Example.runtime Example.unreadable_disk Example.args).1
    = [ErrorReading (lit "docker-compose.yml"); ErrorReading (lit "docker-compose.yml");
       ErrorReadingDockerfile (lit "/work/Dockerfile")]
  ∧ (parse_dockerfile
       {| exists_ := λ _, true; read_file := λ _, Fails (lit "FROM a" ++ [nl]);
          listing := λ _, None; getcwd := [] |} (lit "Dockerfile")).2
    = {| base_image := lit "a"; exposed_ports := [] |}.
Proof.
  repeat split; try (vm_compute; reflexivity).
  vm_compute. intros H. discriminate H.
Qed.

(** ** Path discovery *)
Section walk_facts.
Context (R : Runtime) (D : Disk) (global_spec : option (spec R)).


(** Induction over a directory tree, with the hypothesis for every
    sub-directory *)
Lemma tree_nested_ind (P : tree → Prop) :
  (∀ dirs files, Forall (λ entry, P entry.2) dirs → P (Dir dirs files)) →
  ∀ t, P t.
Proof.
  intros H. fix IH 1. intros [dirs files]. apply H.
  induction dirs as [|[d sub] dirs IHdirs]; constructor; [apply IH|exact IHdirs].
Qed.

Lemma walk_unfold root rel dirs files :
  walk_with_gitignore R D global_spec root rel (Dir dirs files) =
    if pruned R global_spec rel then ([], [])
    else
      let kept name := negb (spec_matches R (local_spec R D root).2 name) in
      ((local_spec R D root).1 ++ (below R D global_spec root rel kept dirs).1,
       (root, List.filter kept (dirs.*1), List.filter kept files)
       :: (below R D global_spec root rel kept dirs).2).
Proof.
  cbn [walk_with_gitignore]. unfold pruned.
  destruct (match rel with [] => false | _ => _ end); [reflexivity|].
  destruct (local_spec R D root) as [ev local]. cbn [fst snd]. cbv zeta.
  match goal with
  | |- (_ ++ (?go dirs).1, _ :: (?go dirs).2) = _ =>
      assert (∀ ds, go ds = below R D global_spec root rel (λ name, negb (spec_matches R local name)) ds)
        as Hgo
  end.
  { induction ds as [|[d sub] ds IHds]; [reflexivity|].
    unfold below. cbn [foldr fst snd]. fold (below R D global_spec root rel
      (λ name, negb (spec_matches R local name)) ds). rewrite <-IHds.
    destruct (negb (spec_matches R local d)); [|reflexivity].
    destruct (walk_with_gitignore R D global_spec (Path.join root d) (rel ++ [d]) sub).
    match goal with |- context [let '(_, _) := ?x in _] => destruct x end.
    reflexivity. }
  rewrite Hgo. reflexivity.
Qed.

Lemma below_yields root rel kept dirs dir fs :
  Forall (λ entry, ∀ root rel dir fs,
            (∃ ds, (dir, ds, fs)
                   ∈ (walk_with_gitignore R D global_spec root rel entry.2).2)
            ↔ yields R D global_spec root rel entry.2 dir fs) dirs →
  (∃ ds, (dir, ds, fs) ∈ (below R D global_spec root rel kept dirs).2)
  ↔ ∃ d sub, (d, sub) ∈ dirs ∧ kept d = true
             ∧ yields R D global_spec (Path.join root d) (rel ++ [d]) sub dir fs.
Proof.
  induction 1 as [|[d sub] dirs Hsub _ IH].
  { split.
    - intros [ds Hin]. by apply elem_of_nil in Hin.
    - intros (d & sub & Hin & _). by apply elem_of_nil in Hin. }
  unfold below. cbn [foldr fst snd]. fold (below R D global_spec root rel kept dirs).
  cbn [snd] in Hsub. split.
  - intros [ds Hin]. destruct (kept d) eqn:Hk.
    + cbn [snd] in Hin. apply elem_of_app in Hin as [Hin|Hin].
      * exists d, sub. split; [apply elem_of_cons; by left|]. split; [done|].
        apply Hsub. by exists ds.
      * destruct (proj1 IH (ex_intro _ ds Hin)) as (d' & sub' & Hin' & Hk' & Hy).
        exists d', sub'. split; [apply elem_of_cons; by right|done].
    + destruct (proj1 IH (ex_intro _ ds Hin)) as (d' & sub' & Hin' & Hk' & Hy).
      exists d', sub'. split; [apply elem_of_cons; by right|done].
  - intros (d' & sub' & Hin & Hk & Hy). apply elem_of_cons in Hin as [Heq|Hin].
    + injection Heq as -> ->. rewrite Hk. cbn [snd].
      apply Hsub in Hy as [ds Hds]. exists ds. apply elem_of_app. by left.
    + destruct (proj2 IH) as [ds Hds]; [by exists d', sub'|].
      destruct (kept d); [|by exists ds].
      exists ds. cbn [snd]. apply elem_of_app. by right.
Qed.

Lemma walk_yields t : ∀ root rel dir fs,
  (∃ ds, (dir, ds, fs) ∈ (walk_with_gitignore R D global_spec root rel t).2)
  ↔ yields R D global_spec root rel t dir fs.
Proof.
  induction t as [dirs files IH] using tree_nested_ind. intros root rel dir fs.
  rewrite walk_unfold. cbv zeta.
  pose proof (below_yields root rel
                (λ name, negb (spec_matches R (local_spec R D root).2 name))
                dirs dir fs IH) as Hbelow.
  split.
  - intros [ds Hin]. destruct (pruned R global_spec rel) eqn:Hpr.
    { by apply elem_of_nil in Hin. }
    cbn [snd] in Hin. apply elem_of_cons in Hin as [Heq|Hin].
    { injection Heq as -> -> ->. by apply yields_here. }
    destruct (proj1 Hbelow (ex_intro _ ds Hin)) as (d & sub & Hd & Hk & Hy).
    apply (yields_below R D global_spec root rel dirs files d sub dir fs);
      [exact Hpr|exact Hd| |exact Hy].
    by apply negb_true_iff.
  - intros Hy. inversion Hy as [? ? ? ? Hpr|? ? ? ? d sub ? ? Hpr Hin Hk Hsub]; subst.
    + unfold pruned. rewrite Hpr. eexists. cbn [snd]. apply elem_of_cons. by left.
    + unfold pruned. rewrite Hpr. cbn [snd].
      destruct (proj2 Hbelow) as [ds Hds].
      { exists d, sub. split; [done|]. split; [by apply negb_true_iff|done]. }
      exists ds. apply elem_of_cons. by right.
Qed.

End walk_facts.

(** C8 (as amended).  Path discovery returns exactly the files whose
    full name matches the pattern (for a plain pattern: equals it) and
    that a yielded directory holds and that directory's own ignore file
    does not match.  The root is yielded; a directory below a yielded one
    is yielded unless its parent's own ignore file matches its name or
    the root-level ignore file matches its path below the root, and a
    directory that is not yielded is not descended into.  No ignore file
    is applied to the files of a deeper directory. *)
Theorem find_files_yields (R : Runtime) (D : Disk) (base_dir filename_regex : list N)
    (global_spec : option (spec R)) :
  (∀ path,
     path ∈ (find_files R D base_dir filename_regex global_spec).2 ↔
     ∃ t dir files name,
       listing D base_dir = Some t
       ∧ yields R D global_spec base_dir [] t dir files
       ∧ name ∈ files
       ∧ fullmatch R filename_regex name = true
       ∧ path = Path.join dir name)
  ∧ (∀ l name, Regex.literal filename_regex = Some l →
       (fullmatch R filename_regex name = true ↔ name = l)).
Proof.
  split.
  - intros path. unfold find_files.
    destruct (listing D base_dir) as [t|].
    2:{ split; [intros Hin; by apply elem_of_nil in Hin|].
        by intros (? & ? & ? & ? & ? & _). }
    destruct (walk_with_gitignore R D global_spec base_dir [] t) as [ev ys] eqn:Hw.
    cbn [snd]. rewrite list_elem_of_bind. split.
    + intros ([[dir ds] files] & Hpath & Hy).
      apply list_elem_of_fmap in Hpath as (name & -> & Hname).
      apply list_elem_of_In, filter_In in Hname as [Hname Hmatch].
      exists t, dir, files, name. split; [done|]. split.
      { apply walk_yields. exists ds. by rewrite Hw. }
      split; [by apply list_elem_of_In|done].
    + intros (t' & dir & files & name & [= <-] & Hy & Hname & Hmatch & ->).
      apply walk_yields in Hy as [ds Hds]. rewrite Hw in Hds.
      exists (dir, ds, files). split; [|exact Hds].
      apply list_elem_of_fmap. exists name. split; [done|].
      apply list_elem_of_In, filter_In. split; [by apply list_elem_of_In|done].
  - intros l name Hl. unfold fullmatch. rewrite Hl. apply bool_decide_eq_true.
Qed.

Lemma find_files_yields_witness :
  Regex.literal (lit "tasks\.json") = Some (lit "tasks.json")
  ∧ (fullmatch Example.runtime (lit "tasks\.json") (lit "tasks.json") = true
     ↔ lit "tasks.json" = lit "tasks.json")
  ∧ fullmatch Example.runtime (lit "tasks\.json") (lit "xtasks.json") = false
  ∧ fullmatch Example.runtime (lit "tasks\.json") (lit "tasksxjson") = false.
Proof.
  assert (Regex.literal (lit "tasks\.json") = Some (lit "tasks.json")) as Hl
    by (vm_compute; reflexivity).
  split; [exact Hl|]. split.
  - exact (proj2 (find_files_yields Example.runtime Example.empty_disk (lit "/work")
                    (lit "tasks\.json") None) _ _ Hl).
  - split; vm_compute; reflexivity.
Defined.

(** C8 (as stated) fails one directory down: a file that the root-level
    ignore file covers is returned, and so is a file two directories
    down that the ignore file of the directory between covers. *)
Lemma find_files_returns_ignored :
  load_global_gitignore Example.runtime Example.ignoring_disk (lit "/work")
  = Returned (Some [lit "tasks.json"])
  ∧ match_file Example.runtime [lit "tasks.json"] (lit "sub/tasks.json") = true
  ∧ (find_files Example.runtime Example.ignoring_disk (lit "/work") (lit "tasks\.json")
       (Some [lit "tasks.json"])).2 = [lit "/work/sub/tasks.json"]
  ∧ (local_spec Example.runtime Example.nested_disk (lit "/work/a")).2
    = Some [lit "tasks.json"]
  ∧ match_file Example.runtime [lit "tasks.json"] (lit "b/tasks.json") = true
  ∧ (find_files Example.runtime Example.nested_disk (lit "/work") (lit "tasks\.json")
       None).2 = [lit "/work/a/b/tasks.json"].
Proof. repeat split; vm_compute; reflexivity. Qed.

(** ** The devcontainer extractor *)
Section devcontainer_facts.




End devcontainer_facts.




(** ** The inputs sub-table *)
Section inputs_facts.
Implicit Types a b c : list N.

Lemma str_leb_total a b : str_leb a b = false → str_leb b a = true.
Proof.
  revert b. induction a as [|x a IH]; intros [|y b]; cbn [str_leb]; try done.
  destruct (N.ltb_spec x y), (N.ltb_spec y x), (N.eqb_spec x y), (N.eqb_spec y x);
    cbn [orb andb]; try done; try lia. apply IH.
Qed.

Lemma str_leb_trans a b c :
  str_leb a b = true → str_leb b c = true → str_leb a c = true.
Proof.
  revert b c. induction a as [|x a IH]; intros [|y b] [|z c]; cbn [str_leb]; try done.
  destruct (N.ltb_spec x y), (N.ltb_spec y z), (N.ltb_spec x z),
    (N.eqb_spec x y), (N.eqb_spec y z), (N.eqb_spec x z);
    cbn [orb andb]; try done; try lia. apply IH.
Qed.

Lemma str_leb_antisym a b : str_leb a b = true → str_leb b a = true → a = b.
Proof.
  revert b. induction a as [|x a IH]; intros [|y b]; cbn [str_leb]; try done.
  destruct (N.ltb_spec x y), (N.ltb_spec y x), (N.eqb_spec x y), (N.eqb_spec y x);
    cbn [orb andb]; try done; try lia.
  intros H1 H2. subst. f_equal. by apply IH.
Qed.

#[global] Instance str_le_total : Total str_le.
Proof.
  intros a b. unfold str_le. destruct (str_leb a b) eqn:H; [by left|].
  right. by rewrite str_leb_total.
Qed.

#[global] Instance str_le_trans : Transitive str_le.
Proof.
  intros a b c. unfold str_le. rewrite !Is_true_true. apply str_leb_trans.
Qed.

#[global] Instance str_le_antisym : AntiSymm (=) str_le.
Proof.
  intros a b. unfold str_le. rewrite !Is_true_true. apply str_leb_antisym.
Qed.





Lemma traverse_Returned {A B} (f : A → outcome B) l ys :
  traverse f l = Returned ys → Forall2 (λ x y, f x = Returned y) l ys.
Proof.
  revert ys. induction l as [|x l IH]; intros ys; cbn [traverse].
  { intros [= <-]. constructor. }
  destruct (f x) as [y|] eqn:Hx; [|done]. cbn [obind].
  destruct (traverse f l) as [ys'|]; [|done]. cbn [obind].
  intros [= <-]. constructor; [done|]. by apply IH.
Qed.

End inputs_facts.




(** * Further properties *)

(** ** The document patcher: frame, order of the markers, totality *)







(** ** The comment and comma strippers *)
Section cleaning_facts.
Implicit Types s pre body post c : list N.

Lemma has_char_cons x y s :
  Text.has_char x (y :: s) = (x =? y)%N || Text.has_char x s.
Proof. reflexivity. Qed.

Lemma string_tail_app s b r : string_tail s = Some (b, r) → s = b ++ r.
Proof.
  revert b. induction s as [s IH] using (induction_ltof1 _ (@length N)).
  unfold ltof in IH. intros b H. destruct s as [|x s]; [done|].
  cbn [string_tail] in H. destruct (x =? dquote)%N.
  { by injection H as <- <-. }
  destruct (x =? backslash)%N.
  - destruct s as [|e s]; [done|].
    destruct (string_tail s) as [[b' r']|] eqn:Ht; [|done].
    injection H as <- <-. apply IH in Ht; [|simpl; lia]. by rewrite Ht.
  - destruct (string_tail s) as [[b' r']|] eqn:Ht; [|done].
    injection H as <- <-. apply IH in Ht; [|simpl; lia]. by rewrite Ht.
Qed.

Lemma remove_json_comments_no_slash s :
  Text.has_char 47%N s = false → remove_json_comments s = s.
Proof.
  induction s as [s IH] using (induction_ltof1 _ (@length N)).
  unfold ltof in IH. intros Hs. destruct s as [|x s]; [done|].
  rewrite has_char_cons in Hs. apply orb_false_iff in Hs as [Hx Hs].
  rewrite remove_json_comments_cons. rewrite (N.eqb_sym x 47%N), Hx.
  destruct (x =? dquote)%N.
  - destruct (string_tail s) as [[b r]|] eqn:Ht.
    + pose proof (string_tail_app _ _ _ Ht) as ->.
      rewrite has_char_app in Hs. apply orb_false_iff in Hs as [_ Hr].
      rewrite IH; [done| |done]. cbn [length]. rewrite length_app. lia.
    + rewrite IH; [done| |done]. simpl. lia.
  - rewrite IH; [done| |done]. simpl. lia.
Qed.

Lemma strip_commas_no_comma fuel s :
  Text.has_char 44%N s = false → strip_commas fuel s = s.
Proof.
  revert s. induction fuel as [|fuel IH]; intros s Hs; [done|].
  destruct s as [|x s]; [done|]. rewrite has_char_cons in Hs.
  apply orb_false_iff in Hs as [Hx Hs]. cbn [strip_commas].
  rewrite (N.eqb_sym x 44%N), Hx. by rewrite IH.
Qed.

Lemma cut_comment_end c post :
  Text.contains (lit "*/") c = false →
  Text.cut (lit "*/") (c ++ lit "*/" ++ post) = Some (c, post).
Proof.
  induction c as [|x c IH]; intros Hc.
  { exact (cut_here (lit "*/") post). }
  apply contains_cons_false in Hc as [Hsw Hc].
  change ((x :: c) ++ lit "*/" ++ post) with (x :: (c ++ lit "*/" ++ post)).
  cbn [Text.cut].
  assert (Text.startswith (lit "*/") (x :: c ++ lit "*/" ++ post) = false) as ->.
  { change (lit "*/") with [42%N; 47%N] in *. cbn [Text.startswith] in *.
    destruct (42 =? x)%N; [|done]. cbn [andb] in *.
    destruct c as [|y c]; [done|]. cbn [app]. cbn [Text.startswith] in *.
    destruct (47 =? y)%N; [done|]. done. }
  rewrite IH by done. done.
Qed.

Lemma line_rest_stops c post :
  Text.has_char nl c = false → line_rest (c ++ nl :: post) = nl :: post.
Proof.
  induction c as [|x c IH]; intros Hc.
  { cbn [app line_rest]. by rewrite N.eqb_refl. }
  rewrite has_char_cons in Hc. apply orb_false_iff in Hc as [Hx Hc].
  cbn [app line_rest]. rewrite (N.eqb_sym x nl), Hx. by apply IH.
Qed.

Lemma line_rest_end c : Text.has_char nl c = false → line_rest c = [].
Proof.
  induction c as [|x c IH]; intros Hc; [done|].
  rewrite has_char_cons in Hc. apply orb_false_iff in Hc as [Hx Hc].
  cbn [line_rest]. rewrite (N.eqb_sym x nl), Hx. by apply IH.
Qed.

End cleaning_facts.

(** A text that holds no slash and no comma comes out of the cleaning
    as it went in: the retry of the tolerant reader then parses the very
    text that failed. *)
Theorem cleaning_keeps_plain_text (text : list N) :
  Text.has_char 47%N text = false → Text.has_char 44%N text = false →
  remove_trailing_commas (remove_json_comments text) = text.
Proof.
  intros Hs Hc. rewrite remove_json_comments_no_slash by done.
  by apply strip_commas_no_comma.
Qed.

Lemma cleaning_keeps_plain_text_witness :
  remove_trailing_commas (remove_json_comments (lit "{ broken: [1 2 }"))
  = lit "{ broken: [1 2 }".
Proof. apply cleaning_keeps_plain_text; vm_compute; reflexivity. Defined.

(** A block comment that the scanner reaches outside a string literal is
    dropped, from its opening to the nearest closing. *)
Theorem block_comment_is_dropped (pre c post : list N) :
  Text.has_char dquote pre = false → Text.has_char 47%N pre = false →
  Text.contains (lit "*/") c = false →
  remove_json_comments (pre ++ lit "/*" ++ c ++ lit "*/" ++ post)
  = pre ++ remove_json_comments post.
Proof.
  intros Hq Hs Hc. rewrite remove_json_comments_plain by done. f_equal.
  change (lit "/*" ++ c ++ lit "*/" ++ post) with (47%N :: 42%N :: (c ++ lit "*/" ++ post)).
  rewrite remove_json_comments_cons.
  change (47 =? dquote)%N with false. change (47 =? 47)%N with true.
  change (42 =? 42)%N with true. cbv iota.
  by rewrite cut_comment_end.
Qed.

Lemma block_comment_is_dropped_witness :
  remove_json_comments (lit "[1 " ++ lit "/*" ++ lit " two * / 2 " ++ lit "*/" ++ lit " 3]")
  = lit "[1 " ++ remove_json_comments (lit " 3]").
Proof. apply block_comment_is_dropped; vm_compute; reflexivity. Defined.

(** A line comment that the scanner reaches outside a string literal is
    dropped up to the end of its line; the line feed stays. *)
Theorem line_comment_is_dropped (pre c post : list N) :
  Text.has_char dquote pre = false → Text.has_char 47%N pre = false →
  Text.has_char nl c = false →
  remove_json_comments (pre ++ lit "//" ++ c ++ [nl] ++ post)
  = pre ++ [nl] ++ remove_json_comments post
  ∧ remove_json_comments (pre ++ lit "//" ++ c) = pre.
Proof.
  intros Hq Hs Hc. split.
  - rewrite remove_json_comments_plain by done. f_equal.
    change (lit "//" ++ c ++ [nl] ++ post) with (47%N :: 47%N :: (c ++ nl :: post)).
    rewrite remove_json_comments_cons.
    change (47 =? dquote)%N with false. change (47 =? 47)%N with true.
    change (47 =? 42)%N with false. cbv iota.
    rewrite line_rest_stops by done.
    apply (remove_json_comments_plain [nl] post); vm_compute; reflexivity.
  - rewrite remove_json_comments_plain by done.
    rewrite <-(app_nil_r pre) at 2. f_equal.
    change (lit "//" ++ c) with (47%N :: 47%N :: c).
    rewrite remove_json_comments_cons.
    change (47 =? dquote)%N with false. change (47 =? 47)%N with true.
    change (47 =? 42)%N with false. cbv iota.
    by rewrite line_rest_end.
Qed.

Lemma line_comment_is_dropped_witness :
  remove_json_comments (lit "[1, " ++ lit "//" ++ lit " one /* still a comment"
                        ++ [nl] ++ lit "2]")
  = lit "[1, " ++ [nl] ++ remove_json_comments (lit "2]").
Proof.
  apply (line_comment_is_dropped (lit "[1, ") (lit " one /* still a comment") (lit "2]"));
    vm_compute; reflexivity.
Defined.

(** ** References to inputs *)
Section input_id_facts.
Implicit Types s name rest : list N.

Lemma value_nested_ind (P : value → Prop) :
  P VNull → (∀ b, P (VBool b)) → (∀ z, P (VNum z)) → (∀ s, P (VStr s)) →
  (∀ l, Forall P l → P (VList l)) →
  (∀ d, Forall (λ kv, P kv.2) d → P (VDict d)) →
  ∀ v, P v.
Proof.
  intros Hn Hb Hz Hs Hl Hd. fix IH 1.
  intros [|b|z|s|l|d]; [exact Hn|exact (Hb b)|exact (Hz z)|exact (Hs s)| |].
  - apply Hl. induction l as [|x l IHl]; constructor; [apply IH|exact IHl].
  - apply Hd. induction d as [|[k x] d IHd]; constructor; [apply IH|exact IHd].
Qed.

Lemma extract_list l id :
  id ∈ extract_all_input_ids (VList l) ↔ ∃ item, item ∈ l ∧ id ∈ extract_all_input_ids item.
Proof.
  induction l as [|x l IH].
  { cbn. split; [intros H; by apply not_elem_of_empty in H|].
    intros (item & Hin & _). by apply elem_of_nil in Hin. }
  change (extract_all_input_ids (VList (x :: l)))
    with (extract_all_input_ids x ∪ extract_all_input_ids (VList l)).
  rewrite elem_of_union, IH. split.
  - intros [H|(item & Hin & H)].
    + exists x. split; [apply elem_of_cons; by left|done].
    + exists item. split; [apply elem_of_cons; by right|done].
  - intros (item & [->|Hin]%elem_of_cons & H); [by left|]. right. by exists item.
Qed.

Lemma extract_dict d id :
  id ∈ extract_all_input_ids (VDict d)
  ↔ ∃ k v, (k, v) ∈ d ∧ id ∈ extract_all_input_ids v.
Proof.
  induction d as [|[k x] d IH].
  { cbn. split; [intros H; by apply not_elem_of_empty in H|].
    intros (k & v & Hin & _). by apply elem_of_nil in Hin. }
  change (extract_all_input_ids (VDict ((k, x) :: d)))
    with (extract_all_input_ids x ∪ extract_all_input_ids (VDict d)).
  rewrite elem_of_union, IH. split.
  - intros [H|(k' & v & Hin & H)].
    + exists k, x. split; [apply elem_of_cons; by left|done].
    + exists k', v. split; [apply elem_of_cons; by right|done].
  - intros (k' & v & [[= -> ->]|Hin]%elem_of_cons & H); [by left|]. right. by exists k', v.
Qed.

Lemma findall_inputs_fuel f f' s :
  length s ≤ f → length s ≤ f' → findall_inputs f s = findall_inputs f' s.
Proof.
  revert f' s. induction f as [|f IH]; intros f' s Hf Hf'.
  { destruct s; [|simpl in Hf; lia]. by destruct f'. }
  destruct f' as [|f']; [destruct s; [done|simpl in Hf'; lia]|].
  destruct s as [|x s]; [done|]. cbn [findall_inputs]. cbn [length] in Hf, Hf'.
  destruct (Text.startswith (lit "${input:") (x :: s)).
  - destruct (Text.cut [125%N] (drop 8 (x :: s))) as [[name rest]|] eqn:Hc.
    + apply cut_length in Hc. pose proof (length_drop (x :: s) 8) as Hd.
      cbn [length] in Hd.
      destruct name; [apply IH; lia|]. f_equal. apply IH; simpl in *; lia.
    + apply IH; lia.
  - apply IH; lia.
Qed.

Lemma cut_char c name rest :
  Text.has_char c name = false →
  Text.cut [c] (name ++ c :: rest) = Some (name, rest).
Proof.
  induction name as [|x name IH]; intros Hc.
  { cbn [app Text.cut Text.startswith]. rewrite N.eqb_refl. cbn [andb]. done. }
  rewrite has_char_cons in Hc. apply orb_false_iff in Hc as [Hx Hc].
  cbn [app Text.cut Text.startswith]. rewrite Hx. cbn [andb].
  by rewrite IH.
Qed.

End input_id_facts.

(** The referenced inputs of a record are exactly those of the strings
    that occur in it as itself, as an item of a list or as the value of
    a field, at any depth; numbers, truth values, [null] and the keys of
    a mapping refer to none. *)
Theorem input_ids_at_any_depth (obj : value) (id : list N) :
  id ∈ extract_all_input_ids obj ↔
  ∃ s, inside (VStr s) obj ∧ id ∈ findall_inputs (length s) s.
Proof.
  revert id. induction obj as [|b|z|s|l IH|d IH] using value_nested_ind; intros id.
  - split; [intros H; by apply not_elem_of_empty in H|]. intros (s & H & _). inversion H.
  - split; [intros H; by apply not_elem_of_empty in H|]. intros (s & H & _). inversion H.
  - split; [intros H; by apply not_elem_of_empty in H|]. intros (s & H & _). inversion H.
  - cbn [extract_all_input_ids]. rewrite elem_of_list_to_set. split.
    + intros H. exists s. split; [constructor|done].
    + intros (s' & H & Hid). by inversion H; subst.
  - rewrite extract_list. split.
    + intros (item & Hin & Hid). rewrite Forall_forall in IH.
      apply (IH item Hin) in Hid as (s & Hs & Hid).
      exists s. split; [|done]. by eapply inside_item.
    + intros (s & Hs & Hid). inversion Hs as [|item l' Hin Hitem|]; subst.
      exists item. split; [done|]. rewrite Forall_forall in IH.
      apply (IH item Hin). by exists s.
  - rewrite extract_dict. split.
    + intros (k & v & Hin & Hid). rewrite Forall_forall in IH.
      apply (IH (k, v) Hin) in Hid as (s & Hs & Hid).
      exists s. split; [|done]. by eapply inside_field.
    + intros (s & Hs & Hid). inversion Hs as [| |k u d' Hin Hu]; subst.
      exists k, u. split; [done|]. rewrite Forall_forall in IH.
      apply (IH (k, u) Hin). by exists s.
Qed.

(** A placeholder with a name that is not empty and holds no closing
    brace is found where the scan reaches it, and the scan goes on
    behind its brace. *)
Theorem placeholder_is_found (name rest : list N) :
  name ≠ [] → Text.has_char 125%N name = false →
  let s := lit "${input:" ++ name ++ [125%N] ++ rest in
  findall_inputs (length s) s = name :: findall_inputs (length rest) rest.
Proof.
  intros Hne Hc s.
  assert (s = 36%N :: drop 1 s) as Hs by reflexivity.
  assert (Text.startswith (lit "${input:") s = true) as Hsw by apply startswith_app.
  assert (drop 8 s = name ++ 125%N :: rest) as Hd
    by exact (drop_app_length (lit "${input:") _).
  rewrite Hs at 1 2. cbn [length findall_inputs]. rewrite <-Hs, Hsw, Hd.
  rewrite cut_char by done. destruct name as [|x name]; [done|]. f_equal.
  apply findall_inputs_fuel; [|done].
  assert (length s = 8 + length ((x :: name) ++ 125%N :: rest)) as Hl
    by (rewrite <-Hd, length_drop; vm_compute; lia).
  rewrite Hs in Hl. cbn [length] in Hl. rewrite length_app in Hl. cbn [length] in Hl. lia.
Qed.

Lemma placeholder_is_found_witness :
  findall_inputs (length (lit "${input:" ++ lit "env" ++ [125%N] ++ lit "-${input:zone}"))
    (lit "${input:" ++ lit "env" ++ [125%N] ++ lit "-${input:zone}")
  = lit "env" :: findall_inputs (length (lit "-${input:zone}")) (lit "-${input:zone}").
Proof.
  apply (placeholder_is_found (lit "env") (lit "-${input:zone}"));
    [discriminate|vm_compute; reflexivity].
Defined.

(** ** Definitions of inputs and lists of extensions *)
Section collection_facts.

Lemma dict_get_set_eq k v d : dict_get k (dict_set k v d) = Some v.
Proof.
  induction d as [|[k' u] d IH]; cbn [dict_set dict_get].
  { by rewrite bool_decide_eq_true_2. }
  destruct (bool_decide (k' = k)) eqn:Hk; cbn [dict_get]; rewrite Hk; [done|exact IH].
Qed.

Lemma dict_get_set_ne k k' v d : k ≠ k' → dict_get k' (dict_set k v d) = dict_get k' d.
Proof.
  intros Hne. induction d as [|[k0 u] d IH]; cbn [dict_set dict_get].
  { by rewrite bool_decide_eq_false_2. }
  destruct (bool_decide (k0 = k)) eqn:Hk; cbn [dict_get].
  - apply bool_decide_eq_true in Hk as ->. by rewrite bool_decide_eq_false_2.
  - by rewrite IH.
Qed.

Lemma collect_definitions_plain inputs acc :
  Forall plain_input inputs →
  ∃ defs, collect_definitions acc inputs = Returned defs
    ∧ ∀ id, dict_get id defs
            = match last (List.filter (defines id) inputs) with
              | Some inp => Some inp
              | None => dict_get id acc
              end.
Proof.
  intros Hplain. revert acc.
  induction Hplain as [|inp inputs (d & -> & Hid) _ IH]; intros acc.
  { exists acc. done. }
  cbn [collect_definitions contains_key obind get].
  destruct Hid as [Hid|[k Hid]]; rewrite Hid.
  - rewrite bool_decide_eq_false_2 by (by intros [? ?]).
    destruct (IH acc) as (defs & -> & Hdefs). exists defs. split; [done|].
    intros id. rewrite Hdefs. cbn [List.filter defines]. by rewrite Hid.
  - rewrite bool_decide_eq_true_2 by eauto. cbn [from_option id obind].
    destruct (IH (dict_set k (VDict d) acc)) as (defs & -> & Hdefs).
    exists defs. split; [done|]. intros id'. rewrite Hdefs.
    cbn [List.filter defines]. rewrite Hid.
    destruct (decide (k = id')) as [->|Hne].
    + rewrite bool_decide_eq_true_2 by done. rewrite dict_get_set_eq.
      rewrite last_cons. by destruct (last (List.filter (defines id') inputs)).
    + rewrite bool_decide_eq_false_2 by done. by rewrite dict_get_set_ne.
Qed.

Lemma existsb_py_eq_str x (a : list (list N)) :
  existsb (py_eq (VStr x)) (VStr <$> a) = bool_decide (x ∈ a).
Proof.
  induction a as [|y a IH]; [done|].
  rewrite fmap_cons.
  change (existsb (py_eq (VStr x)) (VStr y :: (VStr <$> a)))
    with (bool_decide (x = y) || existsb (py_eq (VStr x)) (VStr <$> a)).
  rewrite IH.
  destruct (decide (x = y)) as [->|Hne].
  - rewrite (bool_decide_eq_true_2 (y = y)) by done. cbn [orb].
    rewrite bool_decide_eq_true_2; [done|]. apply elem_of_cons. by left.
  - rewrite (bool_decide_eq_false_2 (x = y)) by done. cbn [orb].
    apply bool_decide_ext. rewrite elem_of_cons. split; [by right | by intros [?|?]].
Qed.

Lemma remove_dups_skip {A} `{EqDecision A} (x : A) u v :
  x ∈ v → remove_dups (u ++ x :: v) = remove_dups (u ++ v).
Proof.
  intros Hx. induction u as [|y u IH].
  { cbn [app remove_dups]. by destruct (decide_rel elem_of x v). }
  cbn [app remove_dups]. rewrite IH.
  destruct (decide_rel elem_of y (u ++ x :: v)) as [H1|H1],
    (decide_rel elem_of y (u ++ v)) as [H2|H2]; try done.
  - exfalso. apply H2. rewrite elem_of_app in H1 |- *.
    destruct H1 as [?|[->|?]%elem_of_cons]; auto.
  - exfalso. apply H1. rewrite elem_of_app in H2 |- *.
    destruct H2 as [?|?]; [by left|]. right. apply elem_of_cons. by right.
Qed.

Lemma NoDup_reverse {A} (l : list A) : NoDup l → NoDup (reverse l).
Proof. by rewrite reverse_Permutation. Qed.

Lemma remove_dups_NoDup {A} `{EqDecision A} (l : list A) : NoDup l → remove_dups l = l.
Proof.
  induction 1 as [|x l Hx _ IH]; [done|]. cbn [remove_dups].
  destruct (decide_rel elem_of x l); [done|by rewrite IH].
Qed.

Lemma fromkeys_strings (l a : list (list N)) :
  NoDup a →
  fromkeys (VStr <$> a) (VStr <$> l)
  = Returned (VStr <$> reverse (remove_dups (reverse (a ++ l)))).
Proof.
  revert a. induction l as [|x l IH]; intros a Ha.
  { cbn [fmap list_fmap fromkeys]. rewrite app_nil_r.
    rewrite remove_dups_NoDup by (by apply NoDup_reverse).
    by rewrite reverse_involutive. }
  rewrite fmap_cons. cbn [fromkeys]. rewrite existsb_py_eq_str.
  destruct (decide (x ∈ a)) as [Hx|Hx].
  - rewrite bool_decide_eq_true_2 by done. rewrite IH by done.
    do 3 f_equal. rewrite !reverse_app, reverse_cons, <-(assoc_L (++)).
    cbn [app]. symmetry. apply remove_dups_skip. by apply elem_of_reverse.
  - rewrite bool_decide_eq_false_2 by done.
    change (fromkeys ((VStr <$> a) ++ [VStr x]) (VStr <$> l))
      with (fromkeys ((VStr <$> a) ++ (VStr <$> [x])) (VStr <$> l)).
    rewrite <-fmap_app, IH.
    + by rewrite <-(assoc_L (++)).
    + apply NoDup_app. split; [done|]. split; [|apply NoDup_singleton].
      intros y Hy ->%list_elem_of_singleton. done.
Qed.

End collection_facts.

(** Of the definitions of inputs, those without an [id] are skipped and
    the last one with a given [id] is the one looked up. *)
Theorem last_definition_wins (inputs : list value) :
  Forall plain_input inputs →
  ∃ defs, input_definitions_of (VList inputs) = Returned defs
    ∧ ∀ id, dict_get id defs = last (List.filter (defines id) inputs).
Proof.
  intros Hplain. destruct (collect_definitions_plain inputs [] Hplain) as (defs & H & Hd).
  exists defs. split; [exact H|]. intros id. rewrite Hd.
  by destruct (last (List.filter (defines id) inputs)).
Qed.

Lemma last_definition_wins_witness :
  let first := VDict [(lit "id", VStr (lit "env")); (lit "description", VStr (lit "old"))] in
  let other := VDict [(lit "type", VStr (lit "promptString"))] in
  let second := VDict [(lit "id", VStr (lit "env")); (lit "description", VStr (lit "new"))] in
  ∃ defs, input_definitions_of (VList [first; other; second]) = Returned defs
    ∧ dict_get (lit "env") defs = Some second.
Proof.
  cbv zeta.
  destruct (last_definition_wins
    [VDict [(lit "id", VStr (lit "env")); (lit "description", VStr (lit "old"))];
     VDict [(lit "type", VStr (lit "promptString"))];
     VDict [(lit "id", VStr (lit "env")); (lit "description", VStr (lit "new"))]])
    as (defs & H & Hd).
  { repeat constructor; eexists; (split; [reflexivity|]);
      [right; eexists; vm_compute; reflexivity
      |left; vm_compute; reflexivity
      |right; eexists; vm_compute; reflexivity]. }
  exists defs. split; [exact H|]. rewrite Hd. vm_compute. reflexivity.
Defined.

(** A list of extension identifiers is deduplicated to the first
    occurrence of each, in order. *)
Theorem extensions_keep_first_occurrence (l : list (list N)) :
  fromkeys [] (VStr <$> l) = Returned (VStr <$> reverse (remove_dups (reverse l)))
  ∧ NoDup (reverse (remove_dups (reverse l)))
  ∧ (∀ x, x ∈ reverse (remove_dups (reverse l)) ↔ x ∈ l)
  ∧ head (reverse (remove_dups (reverse l))) = head l.
Proof.
  split; [exact (fromkeys_strings l [] (NoDup_nil_2))|]. split; [|split].
  - apply NoDup_reverse, NoDup_remove_dups.
  - intros x. by rewrite elem_of_reverse, elem_of_remove_dups, elem_of_reverse.
  - destruct l as [|x l]; [done|].
    pose proof (fromkeys_strings l [x]) as H.
    assert (NoDup [x]) as Hx by apply NoDup_singleton. specialize (H Hx).
    assert (∃ r, reverse (remove_dups (reverse (x :: l))) = x :: r) as [r ->]; [|done].
    clear H Hx. rewrite reverse_cons.
    induction (reverse l) as [|y k IH].
    { exists []. done. }
    destruct IH as [r Hr]. cbn [app remove_dups].
    destruct (decide_rel elem_of y (k ++ [x])); [by exists r|].
    rewrite reverse_cons, Hr. by exists (r ++ [y]).
Qed.

(** ** Volumes, environment and commands *)
Section splitting_facts.
Implicit Types s cur a rest : list N.

Lemma split_on_plain sep cur a :
  Text.has_char sep a = false → Text.split_on sep cur a = [cur ++ a].
Proof.
  revert cur. induction a as [|x a IH]; intros cur Ha.
  { cbn. by rewrite app_nil_r. }
  rewrite has_char_cons in Ha. apply orb_false_iff in Ha as [Hx Ha].
  cbn [Text.split_on]. rewrite (N.eqb_sym x sep), Hx.
  rewrite IH by done. by rewrite <-(assoc_L (++)).
Qed.

Lemma split_on_sep sep cur a rest :
  Text.has_char sep a = false →
  Text.split_on sep cur (a ++ sep :: rest) = (cur ++ a) :: Text.split_on sep [] rest.
Proof.
  revert cur. induction a as [|x a IH]; intros cur Ha.
  { cbn [app Text.split_on]. by rewrite N.eqb_refl, app_nil_r. }
  rewrite has_char_cons in Ha. apply orb_false_iff in Ha as [Hx Ha].
  cbn [app Text.split_on]. rewrite (N.eqb_sym x sep), Hx.
  rewrite IH by done. by rewrite <-(assoc_L (++)).
Qed.

(** No field of a split holds the separator. *)
Lemma split_on_fields sep cur s :
  Text.has_char sep cur = false →
  Forall (λ field, Text.has_char sep field = false) (Text.split_on sep cur s).
Proof.
  revert cur. induction s as [|x s IH]; intros cur Hcur.
  { by constructor. }
  cbn [Text.split_on]. destruct (x =? sep)%N eqn:Hx.
  - constructor; [done|]. by apply IH.
  - apply IH. rewrite has_char_app, Hcur. cbn [orb].
    rewrite has_char_cons, N.eqb_sym, Hx. done.
Qed.

Lemma split_on_not_nil sep cur s : Text.split_on sep cur s ≠ [].
Proof.
  revert cur. induction s as [|x s IH]; intros cur; [done|].
  cbn [Text.split_on]. destruct (x =? sep)%N; [done|apply IH].
Qed.

Lemma basename_no_sep p : Text.has_char Path.sep (Path.basename p) = false.
Proof.
  unfold Path.basename.
  pose proof (split_on_fields Path.sep [] p eq_refl) as Hall.
  destruct (last (Text.split_on Path.sep [] p)) as [b|] eqn:Hl; [|done].
  cbn [from_option id]. rewrite Forall_forall in Hall. apply Hall.
  apply last_Some in Hl as [l' ->]. apply elem_of_app. right.
  by apply list_elem_of_singleton.
Qed.

End splitting_facts.

(** A volume [host:container:mode] gives the row of its three parts, the
    host [.] shown as the project directory; the parts that a shorter
    volume lacks are empty cells. *)
Theorem volume_row_parts (host container mode : list N) :
  Text.has_char 58%N host = false → Text.has_char 58%N container = false →
  Text.has_char 58%N mode = false →
  volume_row (VStr (host ++ [58%N] ++ container ++ [58%N] ++ mode))
  = Returned [format_host host; container; mode]
  ∧ volume_row (VStr (host ++ [58%N] ++ container))
    = Returned [format_host host; container; []]
  ∧ volume_row (VStr host) = Returned [format_host host; []; []]
  ∧ format_host (lit ".") = lit "(Project directory)".
Proof.
  intros Hh Hc Hm. unfold volume_row. split; [|split; [|split]].
  - change (host ++ [58%N] ++ container ++ [58%N] ++ mode)
      with (host ++ 58%N :: (container ++ 58%N :: mode)).
    rewrite !split_on_sep, split_on_plain by done. reflexivity.
  - change (host ++ [58%N] ++ container) with (host ++ 58%N :: container).
    rewrite split_on_sep, split_on_plain by done. reflexivity.
  - rewrite split_on_plain by done. reflexivity.
  - vm_compute. reflexivity.
Qed.

Lemma volume_row_parts_witness :
  volume_row (VStr (lit "." ++ [58%N] ++ lit "/app" ++ [58%N] ++ lit "ro"))
  = Returned [lit "(Project directory)"; lit "/app"; lit "ro"].
Proof.
  rewrite (proj1 (volume_row_parts (lit ".") (lit "/app") (lit "ro")
                    eq_refl eq_refl eq_refl)).
  vm_compute. reflexivity.
Defined.

(** The command cell of a task is the base name of the command between
    backticks: whatever the command, the cell holds no path separator. *)
Theorem task_command_is_base_name (R : Runtime) (defs : list (list N * value))
    (d : list (list N * value)) (c : list N) (t : task_info) :
  dict_get (lit "command") d = Some (VStr c) → c ≠ [] →
  task_record R defs (VDict d) = Returned t →
  task_command t = VStr ([backtick] ++ Path.basename c ++ [backtick])
  ∧ Text.has_char Path.sep (Path.basename c) = false.
Proof.
  intros Hc Hne. unfold task_record. cbn [get obind]. rewrite Hc.
  cbn [from_option id truthy]. destruct c as [|x c]; [done|].
  cbn [obind]. destruct (input_details R defs (VDict d)) as [inputs|]; [|done].
  cbn [obind]. intros [= <-]. cbn [task_command]. split; [done|].
  apply basename_no_sep.
Qed.

Lemma task_command_is_base_name_witness :
  ∃ t, task_record Example.runtime []
         (VDict [(lit "label", VStr (lit "build"));
                 (lit "command", VStr (lit "/usr/local/bin/make"))]) = Returned t
       ∧ task_command t = VStr (lit "`make`").
Proof.
  eexists. split; [vm_compute; reflexivity|].
  refine (eq_trans (proj1 (task_command_is_base_name Example.runtime []
    [(lit "label", VStr (lit "build")); (lit "command", VStr (lit "/usr/local/bin/make"))]
    (lit "/usr/local/bin/make") _ _ _ _)) _);
    [vm_compute; reflexivity|discriminate|vm_compute; reflexivity|vm_compute; reflexivity].
Defined.

(** ** Blank cells, the environment table, rows that are too short *)
Section blank_facts.
Implicit Types s t : list N.

Lemma lstrip_nil s : Text.lstrip s = [] ↔ forallb Text.is_space s = true.
Proof.
  induction s as [|c s IH]; [done|]. cbn [Text.lstrip forallb].
  destruct (Text.is_space c); [exact IH|]. split; discriminate.
Qed.

Lemma lstrip_head s c t : Text.lstrip s = c :: t → Text.is_space c = false.
Proof.
  induction s as [|x s IH]; [done|]. cbn [Text.lstrip].
  destruct (Text.is_space x) eqn:Hx; [exact IH|]. by intros [= <- _].
Qed.

Lemma forallb_reverse {A} (f : A → bool) (l : list A) :
  forallb f (reverse l) = forallb f l.
Proof.
  induction l as [|x l IH]; [done|].
  rewrite reverse_cons, forallb_app, IH. cbn [forallb]. by destruct (f x), (forallb f l).
Qed.

(** Stripping leaves nothing exactly of the texts that are white space
    throughout. *)
Lemma strip_blank s : Text.strip s = [] ↔ forallb Text.is_space s = true.
Proof.
  unfold Text.strip, Text.rstrip. rewrite <-lstrip_nil.
  split.
  - intros H. apply (f_equal reverse) in H. rewrite reverse_involutive in H.
    cbn in H. apply lstrip_nil in H. rewrite forallb_reverse in H.
    destruct (Text.lstrip s) as [|c t] eqn:Hl; [done|].
    apply lstrip_head in Hl. cbn [forallb] in H. by rewrite Hl in H.
  - intros ->. done.
Qed.

Lemma strip_starts_plain c s : Text.is_space c = false → Text.strip (c :: s) ≠ [].
Proof. intros Hc H. apply strip_blank in H. cbn [forallb] in H. by rewrite Hc in H. Qed.


Lemma any_cell_exn i rows e : any_cell i rows = Raised e → e = IndexError.
Proof.
  induction rows as [|row rows IH]; [done|]. cbn [any_cell].
  unfold index. destruct (row !! i); cbn [obind]; [|by intros [= <-]].
  destruct (Text.strip l); [exact IH|done].
Qed.

Lemma non_empty_cols_short row rows cols i :
  i ∈ cols → length row ≤ i →
  non_empty_cols (row :: rows) cols = Raised IndexError.
Proof.
  intros Hin Hi. induction cols as [|j cols IH]; [by apply elem_of_nil in Hin|].
  cbn [non_empty_cols].
  destruct (any_cell j (row :: rows)) as [b|e] eqn:Hj.
  2:{ apply any_cell_exn in Hj as ->. done. }
  cbn [obind]. apply elem_of_cons in Hin as [->|Hin].
  - cbn [any_cell] in Hj. unfold index in Hj.
    rewrite (lookup_ge_None_2 row j) in Hj by done. done.
  - by rewrite IH.
Qed.

End blank_facts.

(** The inline renderer raises [IndexError] when the first row has fewer
    cells than there are headers. *)
Theorem html_table_short_row (headers : list (list N)) (row : list (list N))
    (rows : list (list (list N))) :
  length row < length headers →
  generate_html_table headers (row :: rows) = Raised IndexError.
Proof.
  intros Hlen. unfold generate_html_table.
  rewrite (non_empty_cols_short row rows _ (length row)); [done| |done].
  apply list_elem_of_In, in_seq. lia.
Qed.

Lemma html_table_short_row_witness :
  generate_html_table [lit "Host"; lit "Container"; lit "Mode"] [[lit "."; lit "/app"]]
  = Raised IndexError.
Proof. apply html_table_short_row. cbn. lia. Defined.



(** ** What the orchestrator always writes, and when it stops *)






(** A root-level ignore file that exists and cannot be read stops the
    run before any extractor runs: nothing is printed and nothing is
    written. *)
Theorem unreadable_root_ignore_file_stops (R : Runtime) (D : Disk) (args : Args)
    (seen : list N) :
  exists_ D (Path.join (abspath R (arg_base_dir args)) (lit ".gitignore")) = true →
  read_file D (Path.join (abspath R (arg_base_dir args)) (lit ".gitignore")) = Fails seen →
  main R D args = ([], Raised ReadError).
Proof.
  intros He Hr. unfold main, generated, extract, load_global_gitignore.
  rewrite He, Hr. reflexivity.
Qed.

Lemma unreadable_root_ignore_file_stops_witness :
  main Example.runtime
    {| exists_ := λ _, true; read_file := λ _, Fails [];
       listing := λ _, Some (Dir [] []); getcwd := lit "/work" |} Example.args
  = ([], Raised ReadError).
Proof. apply (unreadable_root_ignore_file_stops _ _ _ []); reflexivity. Defined.

(** ** One record per task *)
Section record_facts.

Lemma task_record_fields R defs task info :
  task_record R defs task = Returned info →
  get task (lit "label") (VStr []) = Returned (task_label info)
  ∧ get task (lit "detail") (VStr []) = Returned (task_detail info)
  ∧ input_details R defs task = Returned (task_inputs info).
Proof.
  unfold task_record.
  destruct (get task (lit "label") (VStr [])) as [label|]; [|done]. cbn [obind].
  destruct (get task (lit "detail") (VStr [])) as [detail|]; [|done]. cbn [obind].
  destruct (get task (lit "command") (VStr [])) as [command|]; [|done]. cbn [obind].
  destruct (if truthy command then _ else _) as [command'|]; [|done]. cbn [obind].
  destruct (input_details R defs task) as [inputs|]; [|done]. cbn [obind].
  by intros [= <-].
Qed.

End record_facts.

(** A task file that holds a mapping with a list of tasks gives one
    record per task, in the order of the file, with the label and the
    detail of the task as they stand; a task that refers to no input has
    an empty inputs cell. *)
Theorem one_record_per_task (R : Runtime) (D : Disk) (file_path : list N)
    (ev : list event) (d : list (list N * value)) (tasks : list value)
    (infos : list task_info) :
  parse_json_file R D file_path = (ev, VDict d) →
  dict_get (lit "tasks") d = Some (VList tasks) →
  parse_vscode_tasks R D file_path = (ev, Returned infos) →
  length infos = length tasks
  ∧ ∀ i task info, tasks !! i = Some task → infos !! i = Some info →
      get task (lit "label") (VStr []) = Returned (task_label info)
      ∧ get task (lit "detail") (VStr []) = Returned (task_detail info)
      ∧ (extract_all_input_ids task = ∅ → task_inputs info = []).
Proof.
  intros Hp Ht. unfold parse_vscode_tasks. rewrite Hp.
  destruct d as [|kv d']; [done|]. set (d := kv :: d') in *.
  cbn [truthy negb get obind]. fold d.
  destruct (input_definitions_of _) as [defs|]; [|discriminate].
  cbn [obind]. rewrite Ht. cbn [from_option id obind iter_values].
  intros [= Hall]. apply traverse_Returned in Hall.
  split; [symmetry; by eapply Forall2_length|].
  intros i task info Hi Hinfo.
  destruct (Forall2_lookup_l _ _ _ _ _ Hall Hi) as (info' & Hinfo' & Hrec).
  rewrite Hinfo in Hinfo'. injection Hinfo' as <-.
  apply task_record_fields in Hrec as (Hl & Hd & Hin).
  split; [done|]. split; [done|]. intros Hnone. unfold input_details in Hin.
  rewrite Hnone in Hin. rewrite bool_decide_eq_true_2 in Hin by done. by injection Hin.
Qed.

Lemma one_record_per_task_witness :
  let D := Example.one_file_disk "tasks.json" Example.tasks_text in
  parse_json_file Example.tasks_runtime D (lit "/work/tasks.json")
  = ([], Example.tasks_data)
  ∧ ∃ infos, parse_vscode_tasks Example.tasks_runtime D (lit "/work/tasks.json")
             = ([], Returned infos)
             ∧ length infos = 2.
Proof.
  cbv zeta.
  assert (parse_json_file Example.tasks_runtime
            (Example.one_file_disk "tasks.json" Example.tasks_text)
            (lit "/work/tasks.json") = ([], Example.tasks_data)) as Hp
    by (vm_compute; reflexivity).
  split; [exact Hp|].
  assert (∃ infos, parse_vscode_tasks Example.tasks_runtime
                     (Example.one_file_disk "tasks.json" Example.tasks_text)
                     (lit "/work/tasks.json") = ([], Returned infos)) as [infos Hi]
    by (eexists; vm_compute; reflexivity).
  exists infos. split; [exact Hi|].
  exact (proj1 (one_record_per_task _ _ _ _ _ _ _ Hp eq_refl Hi)).
Defined.

(** ** Extensions, ports, and the lines of a build file *)
Section more_facts.
Implicit Types s t u : list N.

Lemma lstrip_suffix s : ∃ w, s = w ++ Text.lstrip s.
Proof.
  induction s as [|c s [w IH]]; [by exists []|]. cbn [Text.lstrip].
  destruct (Text.is_space c); [|by exists []].
  exists (c :: w). cbn [app]. by rewrite <-IH.
Qed.

(** What stripping leaves starts with a character that is no white
    space. *)
Lemma strip_head s c t : Text.strip s = c :: t → Text.is_space c = false.
Proof.
  unfold Text.strip, Text.rstrip.
  destruct (Text.lstrip s) as [|x u] eqn:Hl; [done|].
  apply lstrip_head in Hl. intros H.
  destruct (lstrip_suffix (reverse (x :: u))) as [w Hw].
  apply (f_equal reverse) in Hw. rewrite reverse_involutive, reverse_app, H in Hw.
  by injection Hw as -> _.
Qed.

Lemma strip_strip_not_nil s : Text.strip s ≠ [] → Text.strip (Text.strip s) ≠ [].
Proof.
  destruct (Text.strip s) as [|c t] eqn:Hs; [done|]. intros _.
  apply strip_starts_plain. by eapply strip_head.
Qed.

Lemma traverse_extension_rows (exts : list (list N)) :
  traverse extension_rows (VStr <$> exts)
  = Returned ((λ ext, match Text.strip ext with
                      | [] => []
                      | _ => [[Text.strip ext; store_link (Text.strip ext)]]
                      end) <$> exts).
Proof.
  induction exts as [|e exts IH]; [done|].
  rewrite !fmap_cons. cbn [traverse extension_rows obind]. rewrite IH. reflexivity.
Qed.

Lemma join_ports_not_strings items :
  items ≠ [] → Exists (λ p, ∀ s, p ≠ VStr s) items →
  join_ports (VList items) = Raised TypeError.
Proof.
  intros Hne Hex. unfold join_ports. destruct items as [|p0 items0]; [done|].
  cbn [truthy iter_values obind]. set (items := p0 :: items0) in *. clearbody items.
  clear Hne. induction Hex as [p items Hp|p items _ IH].
  - cbn [traverse]. destruct p; try done. by destruct (Hp s).
  - cbn [traverse]. destruct p; try done. cbn [obind].
    destruct (traverse _ items) as [parts|e]; [done|].
    cbn [obind] in IH |- *. done.
Qed.

End more_facts.

Section table_facts.

Lemma extension_rows_names (exts : list (list N)) :
  concat ((λ ext, match Text.strip ext with
                  | [] => []
                  | _ => [[Text.strip ext; store_link (Text.strip ext)]]
                  end) <$> exts)
  = (λ e, [e; store_link e])
      <$> List.filter (λ e, bool_decide (e ≠ [])) (Text.strip <$> exts).
Proof.
  induction exts as [|ext exts IH]; [done|].
  rewrite !fmap_cons. cbn [concat List.filter]. rewrite IH.
  destruct (Text.strip ext) as [|c t] eqn:Hs.
  - rewrite bool_decide_eq_false_2 by (by intros H). reflexivity.
  - rewrite bool_decide_eq_true_2 by discriminate. reflexivity.
Qed.

Lemma store_link_head e : ∃ t, store_link e = 60%N :: t.
Proof. unfold store_link. change (lit "<a href=") with (60%N :: lit "a href="). eauto. Qed.

Lemma declared_filter lines :
  declared_images (List.filter (λ l, is_from l || is_expose l) lines)
  = declared_images lines
  ∧ declared_ports (List.filter (λ l, is_from l || is_expose l) lines)
    = declared_ports lines.
Proof.
  induction lines as [|line lines [IH1 IH2]]; [done|].
  cbn [List.filter]. rewrite (declared_images_cons line lines),
    (declared_ports_cons line lines).
  destruct (is_from line) eqn:Hf; cbn [orb].
  - rewrite declared_images_cons, declared_ports_cons, IH1, IH2, Hf. done.
  - destruct (is_expose line) eqn:He.
    + rewrite declared_images_cons, declared_ports_cons, IH1, IH2, Hf, He. done.
    + done.
Qed.

Lemma service_record_ports name svc info :
  service_record name (VDict svc) = Returned info →
  join_ports (default (VList []) (dict_get (lit "ports") svc)) = Returned (svc_ports info).
Proof.
  unfold service_record. cbn [get obind].
  destruct (match default _ (dict_get (lit "environment") svc) with
            | VList _ => _ | _ => _ end) as [env_vars|]; [|done]. cbn [obind].
  destruct (match env_vars with VDict _ => _ | _ => _ end) as [env|]; [|done].
  cbn [obind].
  destruct (format_env_table env) as [env_str|]; [|done]. cbn [obind].
  destruct (format_volumes_table _) as [volumes|]; [|done]. cbn [obind].
  destruct (join_ports _) as [ports|]; [|done]. cbn [obind].
  by intros [= <-].
Qed.

End table_facts.

(** Of a list of extension identifiers, those that are white space are
    skipped and every other one gets a row with its name, stripped, and
    the link to its page in the store; both columns are shown.  When
    every identifier is white space the cell is empty. *)
Theorem extension_table_rows (exts : list (list N)) :
  exts ≠ [] →
  format_devcontainer_extensions (VStr <$> exts)
  = Returned
      match List.filter (λ e, bool_decide (e ≠ [])) (Text.strip <$> exts) with
      | [] => []
      | names => html_table [lit "Name"; lit "Store Link"]
                   ((λ e, [e; store_link e]) <$> names)
      end.
Proof.
  intros Hne. unfold format_devcontainer_extensions.
  destruct (VStr <$> exts) as [|v vs] eqn:Hv.
  { by apply fmap_nil_inv in Hv. }
  rewrite <-Hv. clear v vs Hv.
  rewrite traverse_extension_rows. cbn [obind]. rewrite extension_rows_names.
  set (names := List.filter (λ e, bool_decide (e ≠ [])) (Text.strip <$> exts)).
  assert (Forall (λ e, ∃ ext, e = Text.strip ext ∧ e ≠ []) names) as Hnames.
  { apply Forall_forall. intros e [Hin He]%list_elem_of_In%filter_In.
    apply list_elem_of_In, list_elem_of_fmap in Hin as (ext & -> & _).
    exists ext. split; [done|]. by apply bool_decide_eq_true in He. }
  destruct names as [|n names']; [reflexivity|]. set (names := n :: names') in *.
  rewrite generate_html_table_kept.
  2:{ unfold names. by rewrite fmap_cons. }
  2:{ apply Forall_forall. intros r (e & -> & _)%list_elem_of_fmap. cbn. lia. }
  assert (kept_columns [lit "Name"; lit "Store Link"]
            ((λ e, [e; store_link e]) <$> names) = [0; 1]) as ->.
  { apply Forall_cons in Hnames as [(ext & Hn & Hnn) _].
    unfold kept_columns. cbn [length seq List.filter].
    assert (∀ i cell, [n; store_link n] !! i = Some cell → Text.strip cell ≠ [] →
              blank_column ((λ e, [e; store_link e]) <$> names) i = false) as Hcol.
    { intros i cell Hi Hc. apply blank_column_false.
      exists [n; store_link n], cell. split; [|done].
      unfold names. rewrite fmap_cons. apply elem_of_cons. by left. }
    rewrite (Hcol 0 n eq_refl), (Hcol 1 (store_link n) eq_refl); [done| |].
    - destruct (store_link_head n) as [t ->]. by apply strip_starts_plain.
    - rewrite Hn. apply strip_strip_not_nil. by rewrite <-Hn. }
  do 2 f_equal. rewrite <-list_fmap_compose. apply list_fmap_ext. done.
Qed.

Lemma extension_table_rows_witness :
  format_devcontainer_extensions (VStr <$> [lit " ms-python.python "; lit "  "])
  = Returned (html_table [lit "Name"; lit "Store Link"]
                [[lit "ms-python.python"; store_link (lit "ms-python.python")]]).
Proof.
  rewrite (extension_table_rows [lit " ms-python.python "; lit "  "]) by discriminate.
  vm_compute. reflexivity.
Defined.

(** A service that lists a port that is not a string, as YAML reads a
    bare number, makes the compose extractor raise instead of
    returning. *)
Theorem port_that_is_no_string_raises (R : Runtime) (D : Disk) (file_path : list N)
    (ev : list event) (d services svc : list (list N * value)) (name : list N)
    (ports : list value) :
  parse_yaml_file R D file_path = (ev, VDict d) →
  dict_get (lit "services") d = Some (VDict services) →
  (name, VDict svc) ∈ services →
  dict_get (lit "ports") svc = Some (VList ports) →
  Exists (λ p, ∀ s, p ≠ VStr s) ports →
  join_ports (VList ports) = Raised TypeError
  ∧ ∀ infos, (parse_docker_compose R D file_path).2 ≠ Returned infos.
Proof.
  intros Hp Hs Hin Hports Hex.
  assert (join_ports (VList ports) = Raised TypeError) as Hj.
  { apply join_ports_not_strings; [|done]. intros ->. by apply Exists_nil in Hex. }
  split; [exact Hj|]. intros infos. unfold parse_docker_compose. rewrite Hp. cbn [snd].
  destruct d as [|kv d']; [done|]. set (d := kv :: d') in *.
  cbn [truthy negb contains_key obind]. fold d.
  rewrite bool_decide_eq_true_2 by (by rewrite Hs). cbn [negb services_of obind].
  fold d. rewrite Hs. cbn [from_option id items obind].
  intros Hall%traverse_Returned.
  apply list_elem_of_lookup in Hin as [i Hi].
  destruct (Forall2_lookup_l _ _ _ _ _ Hall Hi) as (info & _ & Hrec).
  apply service_record_ports in Hrec. rewrite Hports in Hrec.
  cbn [from_option id] in Hrec. by rewrite Hj in Hrec.
Qed.

Lemma port_that_is_no_string_raises_witness :
  let D := Example.one_file_disk "docker-compose.yml" Example.compose_text in
  parse_yaml_file Example.compose_runtime D (lit "/work/docker-compose.yml")
  = ([], Example.compose_data)
  ∧ (parse_docker_compose Example.compose_runtime D (lit "/work/docker-compose.yml")).2
    = Raised TypeError.
Proof.
  cbv zeta.
  assert (parse_yaml_file Example.compose_runtime
            (Example.one_file_disk "docker-compose.yml" Example.compose_text)
            (lit "/work/docker-compose.yml") = ([], Example.compose_data)) as Hp
    by (vm_compute; reflexivity).
  split; [exact Hp|].
  pose proof (proj2 (port_that_is_no_string_raises Example.compose_runtime _ _ _ _
    [(lit "web", VDict [(lit "ports", VList [VNum 8080])])]
    [(lit "ports", VList [VNum 8080])] (lit "web") [VNum 8080] Hp eq_refl
    ltac:(apply elem_of_cons; by left) eq_refl
    ltac:(constructor; discriminate))) as Hnot.
  destruct (parse_docker_compose Example.compose_runtime _ _).2 as [infos|e] eqn:He.
  - by destruct (Hnot infos).
  - revert He. vm_compute. intros [= <-]. reflexivity.
Defined.

(** Only the lines that start with FROM or EXPOSE count: a build file
    gives the record of these lines alone. *)
Theorem other_lines_are_ignored (lines : list (list N)) :
  dockerfile_of_lines (List.filter (λ l, is_from l || is_expose l) lines)
  = dockerfile_of_lines lines.
Proof.
  unfold dockerfile_of_lines. rewrite !dockerfile_fold.
  destruct (declared_filter lines) as [-> ->]. reflexivity.
Qed.

(** ** The build files a compose file names *)

Section compose_build_facts.

Lemma join_dirname_comp_file f : Path.join (Path.dirname comp_file) f = f.
Proof.
  assert (Path.dirname comp_file = []) as -> by (vm_compute; reflexivity).
  unfold Path.join. cbn [last]. by destruct (Text.startswith [Path.sep] f).
Qed.

End compose_build_facts.

(** The build files that the orchestrator adds to those it discovers
    are those that a service names under [build.dockerfile], each
    resolved against the working directory, not against the scanned
    root and not against the directory of the compose file. *)
Theorem named_dockerfiles_resolved (R : Runtime) (services : list value)
    (found : gset (list N)) :
  named_dockerfiles R services = Returned found →
  ∀ p, p ∈ found ↔
       ∃ service b f,
         service ∈ services
         ∧ get service (lit "build") VNull = Returned (VDict b)
         ∧ dict_get (lit "dockerfile") b = Some (VStr f)
         ∧ p = abspath R f.
Proof.
  revert found. induction services as [|service services IH]; intros found.
  { intros [= <-] p. split; [intros Hp; by apply elem_of_empty in Hp|].
    intros (? & ? & ? & Hin & _). by apply elem_of_nil in Hin. }
  cbn [named_dockerfiles].
  destruct (get service (lit "build") VNull) as [build_prop|] eqn:Hb; [|done].
  cbn [obind].
  destruct (match build_prop with VDict b => _ | _ => _ end) as [this|] eqn:Ht; [|done].
  cbn [obind].
  destruct (named_dockerfiles R services) as [rest|]; [|done]. cbn [obind].
  intros [= <-] p. rewrite elem_of_union, (IH rest eq_refl p). split.
  - intros [Hp|(s & b & f & Hs & Hrest)].
    + destruct build_prop as [| | | | |b]; try (injection Ht as <-; by apply elem_of_empty in Hp).
      destruct (dict_get (lit "dockerfile") b) as [[| | |f| |]|] eqn:Hd;
        try done; try (injection Ht as <-; by apply elem_of_empty in Hp).
      injection Ht as <-. apply elem_of_singleton in Hp.
      rewrite join_dirname_comp_file in Hp.
      exists service, b, f. split; [apply elem_of_cons; by left|done].
    + exists s, b, f. split; [apply elem_of_cons; by right|done].
  - intros (s & b & f & [->|Hs]%elem_of_cons & Hg & Hd & ->).
    + left. rewrite Hg in Hb. injection Hb as <-. rewrite Hd in Ht.
      injection Ht as <-. apply elem_of_singleton.
      by rewrite join_dirname_comp_file.
    + right. by exists s, b, f.
Qed.

Lemma named_dockerfiles_resolved_witness :
  let services :=
    [VDict [(lit "build", VDict [(lit "dockerfile", VStr (lit "docker/Dockerfile.dev"))])];
     VDict [(lit "image", VStr (lit "nginx"))]] in
  ∃ found, named_dockerfiles Example.runtime services = Returned found
           ∧ lit "/work/docker/Dockerfile.dev" ∈ found.
Proof.
  cbv zeta.
  exists ({[ abspath Example.runtime
               (Path.join (Path.dirname comp_file) (lit "docker/Dockerfile.dev")) ]}
          ∪ (∅ ∪ ∅)).
  assert (named_dockerfiles Example.runtime
            [VDict [(lit "build",
                     VDict [(lit "dockerfile", VStr (lit "docker/Dockerfile.dev"))])];
             VDict [(lit "image", VStr (lit "nginx"))]]
          = Returned ({[ abspath Example.runtime
                           (Path.join (Path.dirname comp_file)
                              (lit "docker/Dockerfile.dev")) ]} ∪ (∅ ∪ ∅))) as Hn
    by reflexivity.
  split; [exact Hn|].
  apply (named_dockerfiles_resolved Example.runtime _ _ Hn).
  exists (VDict [(lit "build",
                  VDict [(lit "dockerfile", VStr (lit "docker/Dockerfile.dev"))])]),
    [(lit "dockerfile", VStr (lit "docker/Dockerfile.dev"))],
    (lit "docker/Dockerfile.dev").
  split; [apply elem_of_cons; by left|].
  split; [reflexivity|]. split; [reflexivity|]. vm_compute. reflexivity.
Defined.
